(** * NETCONF <lock> and <unlock> of the Netopeer2 server

    A shallow embedding of [src/server/op_un_lock.c] ([op_lock] and
    [op_unlock]) together with the properties of the datastore lock table
    [dslock] that the two operations maintain.

    The two C functions run concurrently in several server threads and
    synchronise through the read/write lock [dslock_rwl].  They are embedded
    as a program-counter machine: one program point per statement that
    touches shared state (the rwlock, the lock table, the sysrepo session).
    [thr_step] is the step function of one thread, [run_thread] runs one
    call to completion without interference, and [step]/[run] interleave a
    pool of threads according to a schedule. *)

From stdpp Require Import base decidable option list gmap strings numbers.

Local Open Scope Z_scope.

Set Warnings "-clear-no-such-hyp".

(** ** Data model *)

(** [sr_datastore_t] of sysrepo, restricted to the three values used. *)
Inductive sr_datastore_t := SR_DS_STARTUP | SR_DS_RUNNING | SR_DS_CANDIDATE.

#[global] Instance sr_datastore_t_eq_dec : EqDecision sr_datastore_t.
Proof. solve_decision. Defined.

(** A NETCONF session.  The C code handles sessions through
    [struct nc_session *] and compares the pointers; the only field it
    reads is the numeric id.  A session is identified with its id here
    (libnetconf2 gives every session its own id), so pointer equality is
    equality of this record and the NULL pointer is [None]. *)
Record nc_session := NcSession { nc_id : N }.

#[global] Instance nc_session_eq_dec : EqDecision nc_session.
Proof. solve_decision. Defined.

(** [nc_session_get_id] of libnetconf2; on a NULL session it returns 0. *)
Definition nc_session_get_id (s : option nc_session) : N :=
  match s with
  | Some s => nc_id s
  | None => 0%N
  end.

(** [struct np2srv_dslock dslock] of common.h: for each datastore the
    session holding the NETCONF lock (NULL when unlocked) and the time the
    lock was taken (0 when unlocked). *)
Record np2srv_dslock := Dslock {
  running : option nc_session;
  running_time : Z;
  startup : option nc_session;
  startup_time : Z;
  candidate : option nc_session;
  candidate_time : Z
}.

(** The pointers [dsl] and [dst] of the C code select one field of
    [dslock]; they are determined by [ds], so reads and writes through them
    take [ds] as the selector. *)
Definition get_dsl (ds : sr_datastore_t) (d : np2srv_dslock) : option nc_session :=
  match ds with
  | SR_DS_RUNNING => running d
  | SR_DS_STARTUP => startup d
  | SR_DS_CANDIDATE => candidate d
  end.

Definition get_dst (ds : sr_datastore_t) (d : np2srv_dslock) : Z :=
  match ds with
  | SR_DS_RUNNING => running_time d
  | SR_DS_STARTUP => startup_time d
  | SR_DS_CANDIDATE => candidate_time d
  end.

Definition set_dsl (ds : sr_datastore_t) (v : option nc_session)
    (d : np2srv_dslock) : np2srv_dslock :=
  match ds with
  | SR_DS_RUNNING =>
      Dslock v (running_time d) (startup d) (startup_time d)
             (candidate d) (candidate_time d)
  | SR_DS_STARTUP =>
      Dslock (running d) (running_time d) v (startup_time d)
             (candidate d) (candidate_time d)
  | SR_DS_CANDIDATE =>
      Dslock (running d) (running_time d) (startup d) (startup_time d)
             v (candidate_time d)
  end.

Definition set_dst (ds : sr_datastore_t) (t : Z)
    (d : np2srv_dslock) : np2srv_dslock :=
  match ds with
  | SR_DS_RUNNING =>
      Dslock (running d) t (startup d) (startup_time d)
             (candidate d) (candidate_time d)
  | SR_DS_STARTUP =>
      Dslock (running d) (running_time d) (startup d) t
             (candidate d) (candidate_time d)
  | SR_DS_CANDIDATE =>
      Dslock (running d) (running_time d) (startup d) (startup_time d)
             (candidate d) t
  end.

(** The strcmp chain at the head of both operations (lines 52-70 and
    145-162): the datastore named by the RPC target, or [None] for the
    final [else] branch. *)
Definition target_ds (dsname : string) : option sr_datastore_t :=
  if String.eqb dsname "running" then Some SR_DS_RUNNING
  else if String.eqb dsname "startup" then Some SR_DS_STARTUP
  else if String.eqb dsname "candidate" then Some SR_DS_CANDIDATE
  else None.

(** ** Replies *)

Inductive NC_ERR_TYPE := NC_ERR_TYPE_PROT | NC_ERR_TYPE_APP.

(** The two error tags the operations build with [nc_err]:
    [NC_ERR_OP_FAILED] with its error type and [NC_ERR_LOCK_DENIED] with
    the id of the session holding the lock (0 when unknown). *)
Inductive NC_ERR :=
  | NC_ERR_OP_FAILED (t : NC_ERR_TYPE)
  | NC_ERR_LOCK_DENIED (sid : N).

(** What [np2log_lasterr] returns after the [ERR]/[EINT] call in front of
    it.  The text of a message is identified by the call that logged it;
    its formatting is not modelled.  [MSG_SR] is a message taken from the
    sysrepo error queue. *)
Inductive np2log_msg :=
  | MSG_EINT
  | MSG_LOCK_HELD
  | MSG_LOCK_FAILED
  | MSG_UNLOCK_INACTIVE
  | MSG_UNLOCK_HELD
  | MSG_UNLOCK_FAILED
  | MSG_SR (text : string).

Record nc_server_error := NcError {
  err_tag : NC_ERR;
  err_msg : option np2log_msg
}.

Definition nc_err (tag : NC_ERR) : nc_server_error := NcError tag None.

Definition nc_err_set_msg (e : nc_server_error) (m : np2log_msg) : nc_server_error :=
  NcError (err_tag e) (Some m).

Inductive nc_server_reply :=
  | NC_RPL_OK
  | NC_RPL_ERROR (errs : list nc_server_error).

Definition nc_server_reply_ok : nc_server_reply := NC_RPL_OK.

Definition nc_server_reply_err (e : nc_server_error) : nc_server_reply :=
  NC_RPL_ERROR [e].

(** [nc_server_reply_add_err] adds to error replies only. *)
Definition nc_server_reply_add_err (r : nc_server_reply) (e : nc_server_error)
    : nc_server_reply :=
  match r with
  | NC_RPL_ERROR errs => NC_RPL_ERROR (errs ++ [e])
  | NC_RPL_OK => NC_RPL_OK
  end.

(** Modelled from the spec: [op_build_err_sr] is defined outside
    op_un_lock.c.  It is the engine's DrainErrorQueue: every message queued
    by the last sysrepo call is translated into one error, and the errors
    are added to the reply in the order of the queue; a NULL reply stays
    NULL when the queue is empty.  [queued] are the translated errors. *)
Definition op_build_err_sr (ereply : option nc_server_reply)
    (queued : list nc_server_error) : option nc_server_reply :=
  foldl (λ r e,
           match r with
           | Some r => Some (nc_server_reply_add_err r e)
           | None => Some (nc_server_reply_err e)
           end)
        ereply queued.

(** ** Shared state *)

(** Threads are numbered. *)
Abbreviation tid := nat (only parsing).

(** [pthread_rwlock_t dslock_rwl]: the thread holding it for writing and
    the threads holding it for reading. *)
Record pthread_rwlock_t := Rwlock {
  writer : option tid;
  readers : gset tid
}.

Definition rwl_free : pthread_rwlock_t := Rwlock None ∅.

(** [pthread_rwlock_rdlock] returns once no thread holds the write lock. *)
Definition pthread_rwlock_rdlock (i : tid) (l : pthread_rwlock_t)
    : option pthread_rwlock_t :=
  match writer l with
  | None => Some (Rwlock None ({[i]} ∪ readers l))
  | Some _ => None
  end.

(** [pthread_rwlock_wrlock] returns once no thread holds the lock at all. *)
Definition pthread_rwlock_wrlock (i : tid) (l : pthread_rwlock_t)
    : option pthread_rwlock_t :=
  if decide (writer l = None ∧ readers l = ∅) then Some (Rwlock (Some i) ∅)
  else None.

(** [pthread_rwlock_unlock] releases whatever the calling thread holds. *)
Definition pthread_rwlock_unlock (i : tid) (l : pthread_rwlock_t) : pthread_rwlock_t :=
  if decide (writer l = Some i) then Rwlock None (readers l)
  else Rwlock (writer l) (readers l ∖ {[i]}).

Inductive rpc_op := OP_LOCK | OP_UNLOCK.

(** What the operations do to their collaborators, newest first.  The
    session named in a sysrepo event is the NETCONF session whose sysrepo
    session ([sessions->srs]) the call was made on. *)
Inductive event :=
  | EvSwitchDs (ncs : nc_session) (ds : sr_datastore_t)
  | EvSrLock (ncs : nc_session) (rc : Z)
  | EvSrUnlock (ncs : nc_session) (rc : Z)
  | EvSrDiscard (ncs : nc_session)
  | EvSrErrors (ncs : nc_session)
  | EvReply (ncs : nc_session) (op : rpc_op) (target : option sr_datastore_t)
      (r : nc_server_reply).

Record shared := Shared {
  dslock : np2srv_dslock;
  dslock_rwl : pthread_rwlock_t;
  np2_ds : nc_session → sr_datastore_t;   (* sessions->ds of every session *)
  trace : list event
}.

Definition with_dslock (f : np2srv_dslock → np2srv_dslock) (s : shared) : shared :=
  Shared (f (dslock s)) (dslock_rwl s) (np2_ds s) (trace s).

Definition with_rwl (l : pthread_rwlock_t) (s : shared) : shared :=
  Shared (dslock s) l (np2_ds s) (trace s).

Definition emit (e : event) (s : shared) : shared :=
  Shared (dslock s) (dslock_rwl s) (np2_ds s) (e :: trace s).

(** Lines 71-75 and 163-167: point the sysrepo session at [ds]. *)
Definition switch_ds (ncs : nc_session) (ds : sr_datastore_t) (s : shared) : shared :=
  if decide (ds = np2_ds s ncs) then s
  else Shared (dslock s) (dslock_rwl s)
              (λ n, if decide (n = ncs) then ds else np2_ds s n)
              (EvSwitchDs ncs ds :: trace s).

(** What the environment answers in one step: the RPC handed to an idle
    thread, the return code of the sysrepo call, the errors translated from
    the sysrepo error queue and the value of [time(NULL)]. *)
Record oracle := Oracle {
  o_rpc : rpc_op * string;
  o_rc : Z;
  o_errors : list nc_server_error;
  o_time : Z
}.

Definition SR_ERR_OK : Z := 0.

(** ** The two operations as a program-counter machine *)

(** Program points of a server thread.  [LK_*] are the points of [op_lock],
    [UL_*] those of [op_unlock]; each is named after the statement executed
    next and carries the datastore [ds] chosen at the head of the function.
    The line numbers refer to op_un_lock.c. *)
Inductive pc :=
  | Idle                                  (* waiting for the next RPC *)
  | LK_entry (dsname : string)            (* 45-75 *)
  | LK_rdlock (ds : sr_datastore_t)       (* 77 *)
  | LK_rdcheck (ds : sr_datastore_t)      (* 78 *)
  | LK_rdunlock (ds : sr_datastore_t)     (* 88 *)
  | LK_wrlock (ds : sr_datastore_t)       (* 90 *)
  | LK_wrcheck (ds : sr_datastore_t)      (* 92 *)
  | LK_held_unlock (ds : sr_datastore_t)  (* 81, label lock_held *)
  | LK_held_reply (ds : sr_datastore_t)   (* 82-86 *)
  | LK_srlock (ds : sr_datastore_t)       (* 96-97 *)
  | LK_fail_unlock (ds : sr_datastore_t)  (* 99 *)
  | LK_fail_reply (ds : sr_datastore_t)   (* 101-112 *)
  | LK_set_dsl (ds : sr_datastore_t)      (* 116 *)
  | LK_set_dst (ds : sr_datastore_t)      (* 117 *)
  | LK_ok_unlock (ds : sr_datastore_t)    (* 118-121 *)
  | UL_entry (dsname : string)            (* 138-167 *)
  | UL_rdlock (ds : sr_datastore_t)       (* 169 *)
  | UL_rdcheck (ds : sr_datastore_t)      (* 170, 180 *)
  | UL_inactive (ds : sr_datastore_t)     (* 172-177 *)
  | UL_other_unlock (ds : sr_datastore_t) (* 182 *)
  | UL_other_reply (ds : sr_datastore_t)  (* 183-187 *)
  | UL_rdunlock (ds : sr_datastore_t)     (* 190 *)
  | UL_wrlock (ds : sr_datastore_t)       (* 191 *)
  | UL_srunlock (ds : sr_datastore_t)     (* 193-194 *)
  | UL_fail_unlock (ds : sr_datastore_t)  (* 196 *)
  | UL_fail_reply (ds : sr_datastore_t)   (* 198-209 *)
  | UL_discard (ds : sr_datastore_t)      (* 213 *)
  | UL_clear_dsl (ds : sr_datastore_t)    (* 216 *)
  | UL_clear_dst (ds : sr_datastore_t)    (* 217 *)
  | UL_ok_unlock (ds : sr_datastore_t).   (* 219-222 *)

(** [return r;] the reply goes back to the client and the thread is idle.
    Returning touches nothing shared, so it is joined to the last statement
    of the call that does; the replies in the trace are in that order. *)
Definition ret (ncs : nc_session) (op : rpc_op) (target : option sr_datastore_t)
    (r : nc_server_reply) (s : shared) : option (pc * shared) :=
  Some (Idle, emit (EvReply ncs op target r) s).

(** Lines 105-112 and 202-209: the lock-denied error with holder 0 is added
    to the errors drained from sysrepo, or stands alone when there are
    none. *)
Definition sr_failure_reply (queued : list nc_server_error) (m : np2log_msg)
    : nc_server_reply :=
  let ereply := op_build_err_sr None queued in
  let e := nc_err_set_msg (nc_err (NC_ERR_LOCK_DENIED 0)) m in
  match ereply with
  | Some ereply => nc_server_reply_add_err ereply e
  | None => nc_server_reply_err e
  end.

(** One step of thread [i] serving session [ncs].  [None] means that the
    thread is blocked on the rwlock.  At the labels [LK_held_reply] and
    [UL_other_reply] the slot is read again, for the id in the reply, after
    the rwlock has been released. *)
Definition thr_step (i : tid) (ncs : nc_session) (o : oracle) (p : pc) (s : shared)
    : option (pc * shared) :=
  match p with
  | Idle =>
      match o_rpc o with
      | (OP_LOCK, dsname) => Some (LK_entry dsname, s)
      | (OP_UNLOCK, dsname) => Some (UL_entry dsname, s)
      end

  (* op_lock *)
  | LK_entry dsname =>
      match target_ds dsname with
      | None =>
          let e := nc_err (NC_ERR_OP_FAILED NC_ERR_TYPE_PROT) in
          let e := nc_err_set_msg e MSG_EINT in
          ret ncs OP_LOCK None (nc_server_reply_err e) s
      | Some ds => Some (LK_rdlock ds, switch_ds ncs ds s)
      end
  | LK_rdlock ds =>
      l ← pthread_rwlock_rdlock i (dslock_rwl s);
      Some (LK_rdcheck ds, with_rwl l s)
  | LK_rdcheck ds =>
      match get_dsl ds (dslock s) with
      | Some _ => Some (LK_held_unlock ds, s)
      | None => Some (LK_rdunlock ds, s)
      end
  | LK_rdunlock ds =>
      Some (LK_wrlock ds, with_rwl (pthread_rwlock_unlock i (dslock_rwl s)) s)
  | LK_wrlock ds =>
      l ← pthread_rwlock_wrlock i (dslock_rwl s);
      Some (LK_wrcheck ds, with_rwl l s)
  | LK_wrcheck ds =>
      match get_dsl ds (dslock s) with
      | Some _ => Some (LK_held_unlock ds, s)
      | None => Some (LK_srlock ds, s)
      end
  | LK_held_unlock ds =>
      Some (LK_held_reply ds, with_rwl (pthread_rwlock_unlock i (dslock_rwl s)) s)
  | LK_held_reply ds =>
      let e := nc_err (NC_ERR_LOCK_DENIED (nc_session_get_id (get_dsl ds (dslock s)))) in
      let e := nc_err_set_msg e MSG_LOCK_HELD in
      ret ncs OP_LOCK (Some ds) (nc_server_reply_err e) s
  | LK_srlock ds =>
      let rc := o_rc o in
      let s := emit (EvSrLock ncs rc) s in
      if decide (rc ≠ SR_ERR_OK) then Some (LK_fail_unlock ds, s)
      else Some (LK_set_dsl ds, s)
  | LK_fail_unlock ds =>
      Some (LK_fail_reply ds, with_rwl (pthread_rwlock_unlock i (dslock_rwl s)) s)
  | LK_fail_reply ds =>
      let s := emit (EvSrErrors ncs) s in
      ret ncs OP_LOCK (Some ds) (sr_failure_reply (o_errors o) MSG_LOCK_FAILED) s
  | LK_set_dsl ds =>
      Some (LK_set_dst ds, with_dslock (set_dsl ds (Some ncs)) s)
  | LK_set_dst ds =>
      Some (LK_ok_unlock ds, with_dslock (set_dst ds (o_time o)) s)
  | LK_ok_unlock ds =>
      let s := with_rwl (pthread_rwlock_unlock i (dslock_rwl s)) s in
      ret ncs OP_LOCK (Some ds) nc_server_reply_ok s

  (* op_unlock *)
  | UL_entry dsname =>
      match target_ds dsname with
      | None =>
          let e := nc_err (NC_ERR_OP_FAILED NC_ERR_TYPE_PROT) in
          let e := nc_err_set_msg e MSG_EINT in
          ret ncs OP_UNLOCK None (nc_server_reply_err e) s
      | Some ds => Some (UL_rdlock ds, switch_ds ncs ds s)
      end
  | UL_rdlock ds =>
      l ← pthread_rwlock_rdlock i (dslock_rwl s);
      Some (UL_rdcheck ds, with_rwl l s)
  | UL_rdcheck ds =>
      match get_dsl ds (dslock s) with
      | None => Some (UL_inactive ds, s)
      | Some holder =>
          if decide (holder ≠ ncs) then Some (UL_other_unlock ds, s)
          else Some (UL_rdunlock ds, s)
      end
  | UL_inactive ds =>
      let s := with_rwl (pthread_rwlock_unlock i (dslock_rwl s)) s in
      let e := nc_err (NC_ERR_OP_FAILED NC_ERR_TYPE_PROT) in
      let e := nc_err_set_msg e MSG_UNLOCK_INACTIVE in
      ret ncs OP_UNLOCK (Some ds) (nc_server_reply_err e) s
  | UL_other_unlock ds =>
      Some (UL_other_reply ds, with_rwl (pthread_rwlock_unlock i (dslock_rwl s)) s)
  | UL_other_reply ds =>
      let e := nc_err (NC_ERR_LOCK_DENIED (nc_session_get_id (get_dsl ds (dslock s)))) in
      let e := nc_err_set_msg e MSG_UNLOCK_HELD in
      ret ncs OP_UNLOCK (Some ds) (nc_server_reply_err e) s
  | UL_rdunlock ds =>
      Some (UL_wrlock ds, with_rwl (pthread_rwlock_unlock i (dslock_rwl s)) s)
  | UL_wrlock ds =>
      l ← pthread_rwlock_wrlock i (dslock_rwl s);
      Some (UL_srunlock ds, with_rwl l s)
  | UL_srunlock ds =>
      let rc := o_rc o in
      let s := emit (EvSrUnlock ncs rc) s in
      if decide (rc ≠ SR_ERR_OK) then Some (UL_fail_unlock ds, s)
      else Some (UL_discard ds, s)
  | UL_fail_unlock ds =>
      Some (UL_fail_reply ds, with_rwl (pthread_rwlock_unlock i (dslock_rwl s)) s)
  | UL_fail_reply ds =>
      let s := emit (EvSrErrors ncs) s in
      ret ncs OP_UNLOCK (Some ds) (sr_failure_reply (o_errors o) MSG_UNLOCK_FAILED) s
  | UL_discard ds =>
      Some (UL_clear_dsl ds, emit (EvSrDiscard ncs) s)
  | UL_clear_dsl ds =>
      Some (UL_clear_dst ds, with_dslock (set_dsl ds None) s)
  | UL_clear_dst ds =>
      Some (UL_ok_unlock ds, with_dslock (set_dst ds 0) s)
  | UL_ok_unlock ds =>
      let s := with_rwl (pthread_rwlock_unlock i (dslock_rwl s)) s in
      ret ncs OP_UNLOCK (Some ds) nc_server_reply_ok s
  end.

(** [n] steps of one thread, all answered by [o]. *)
Fixpoint steps (n : nat) (i : tid) (ncs : nc_session) (o : oracle)
    (p : pc) (s : shared) : option (pc * shared) :=
  match n with
  | O => Some (p, s)
  | S n => '(p', s') ← thr_step i ncs o p s; steps n i ncs o p' s'
  end.

(** One call run to its return with no other thread in between: at most
    [fuel] steps from program point [p], all answered by [o]. *)
Fixpoint run_thread (fuel : nat) (i : tid) (ncs : nc_session) (o : oracle)
    (p : pc) (s : shared) : option shared :=
  match p with
  | Idle => Some s
  | _ =>
      match fuel with
      | O => None
      | S fuel =>
          '(p', s') ← thr_step i ncs o p s;
          run_thread fuel i ncs o p' s'
      end
  end.

(** The longest path through either function takes ten steps. *)
Definition call_fuel : nat := 10.

Definition op_lock (i : tid) (ncs : nc_session) (dsname : string) (o : oracle)
    (s : shared) : option shared :=
  run_thread call_fuel i ncs o (LK_entry dsname) s.

Definition op_unlock (i : tid) (ncs : nc_session) (dsname : string) (o : oracle)
    (s : shared) : option shared :=
  run_thread call_fuel i ncs o (UL_entry dsname) s.

(** The reply of the call that returned last. *)
Definition last_reply (s : shared) : option nc_server_reply :=
  match trace s with
  | EvReply _ _ _ r :: _ => Some r
  | _ => None
  end.

(** ** The server: a pool of threads *)

Record worker := Worker { w_ncs : nc_session; w_pc : pc }.

Record state := State { sh : shared; workers : list worker }.

(** Thread [i] takes one step with the answers [o]. *)
Definition step (lbl : tid * oracle) (st : state) : option state :=
  w ← workers st !! lbl.1;
  '(p', s') ← thr_step lbl.1 (w_ncs w) lbl.2 (w_pc w) (sh st);
  Some (State s' (<[lbl.1 := Worker (w_ncs w) p']> (workers st))).

Fixpoint run (sched : list (tid * oracle)) (st : state) : option state :=
  match sched with
  | [] => Some st
  | lbl :: sched => st' ← step lbl st; run sched st'
  end.

Definition dslock_init : np2srv_dslock := Dslock None 0 None 0 None 0.

(** The server at start: nothing locked, every thread idle.  [pool] lists
    the session each thread serves and [ds0] the datastore every sysrepo
    session starts on. *)
Definition init (pool : list nc_session) (ds0 : nc_session → sr_datastore_t) : state :=
  State (Shared dslock_init rwl_free ds0 []) ((λ n, Worker n Idle) <$> pool).

(** ** Vocabulary of the properties *)

(** The calls made on the backend engine (lock, unlock, discard, reading
    the error queue); switching the datastore of a sysrepo session is not
    one of them. *)
Definition is_engine_call (e : event) : bool :=
  match e with
  | EvSrLock _ _ | EvSrUnlock _ _ | EvSrDiscard _ | EvSrErrors _ => true
  | EvSwitchDs _ _ | EvReply _ _ _ _ => false
  end.

Definition engine_calls (tr : list event) : list event :=
  List.filter is_engine_call tr.

(** The reply carrying the single error [nc_err(NC_ERR_OP_FAILED,
    NC_ERR_TYPE_PROT)] with message [m]. *)
Definition protocol_error (m : np2log_msg) : nc_server_reply :=
  NC_RPL_ERROR [NcError (NC_ERR_OP_FAILED NC_ERR_TYPE_PROT) (Some m)].

(** The reply carrying the single error [nc_err(NC_ERR_LOCK_DENIED,
    holder)] with message [m]. *)
Definition lock_denied (holder : N) (m : np2log_msg) : nc_server_reply :=
  NC_RPL_ERROR [NcError (NC_ERR_LOCK_DENIED holder) (Some m)].

(** A slot of the lock table is consistent when its session and its time
    are both set or both clear. *)
Definition slot_ok (ds : sr_datastore_t) (d : np2srv_dslock) : Prop :=
  get_dsl ds d = None ↔ get_dst ds d = 0.

(** ** Invariants of the server *)

(** What a thread holds of the rwlock at each program point.  At the label
    lock_held, which is reached from both checks, it is either of the
    two. *)
Inductive held := HNone | HRead | HWrite | HEither.

Definition held_at (p : pc) : held :=
  match p with
  | LK_rdcheck _ | LK_rdunlock _
  | UL_rdcheck _ | UL_inactive _ | UL_other_unlock _ | UL_rdunlock _ => HRead
  | LK_wrcheck _ | LK_srlock _ | LK_fail_unlock _
  | LK_set_dsl _ | LK_set_dst _ | LK_ok_unlock _
  | UL_srunlock _ | UL_fail_unlock _ | UL_discard _
  | UL_clear_dsl _ | UL_clear_dst _ | UL_ok_unlock _ => HWrite
  | LK_held_unlock _ => HEither
  | _ => HNone
  end.

Definition holds_ok (k : tid) (p : pc) (l : pthread_rwlock_t) : Prop :=
  match held_at p with
  | HNone => True
  | HRead => k ∈ readers l
  | HWrite => writer l = Some k
  | HEither => k ∈ readers l ∨ writer l = Some k
  end.

(** While a thread holds the write lock no thread holds a read lock. *)
Definition rwl_wf (l : pthread_rwlock_t) : Prop :=
  writer l ≠ None → readers l = ∅.

(** The rwlock records what the program points of the threads say. *)
Definition inv_rwl (st : state) : Prop :=
  rwl_wf (dslock_rwl (sh st)) ∧
  ∀ k w, workers st !! k = Some w → holds_ok k (w_pc w) (dslock_rwl (sh st)).

(** What one step of thread [i] may do to the rwlock. *)
Definition rwl_trans (i : tid) (l l' : pthread_rwlock_t) : Prop :=
  l' = l ∨ pthread_rwlock_rdlock i l = Some l' ∨
  pthread_rwlock_wrlock i l = Some l' ∨ l' = pthread_rwlock_unlock i l.

(** What the thread holding the write lock at [p] has made of slot [ds]:
    between the two assignments of lines 116-117 the session is set and the
    time is not yet, between those of lines 216-217 the session is cleared
    and the time is not yet. *)
Definition slot_view (p : pc) (ds : sr_datastore_t) (d : np2srv_dslock) : Prop :=
  match p with
  | LK_set_dst ds' => if decide (ds' = ds) then get_dsl ds d ≠ None else slot_ok ds d
  | UL_clear_dst ds' => if decide (ds' = ds) then get_dsl ds d = None else slot_ok ds d
  | _ => slot_ok ds d
  end.

Definition inv_slots (st : state) : Prop :=
  ∀ ds,
    (writer (dslock_rwl (sh st)) = None → slot_ok ds (dslock (sh st))) ∧
    (∀ k w, workers st !! k = Some w → writer (dslock_rwl (sh st)) = Some k →
            slot_view (w_pc w) ds (dslock (sh st))).

(** *** Mutual exclusion, read off the replies *)

(** The session that holds the lock on [ds] according to the replies sent
    so far: the caller of the last [op_lock] on [ds] that was answered ok,
    unless an [op_unlock] on [ds] was answered ok since. *)
Fixpoint holder (ds : sr_datastore_t) (tr : list event) : option nc_session :=
  match tr with
  | [] => None
  | EvReply n OP_LOCK (Some ds') NC_RPL_OK :: tr =>
      if decide (ds' = ds) then Some n else holder ds tr
  | EvReply n OP_UNLOCK (Some ds') NC_RPL_OK :: tr =>
      if decide (ds' = ds) then None else holder ds tr
  | _ :: tr => holder ds tr
  end.

(** A reply that refuses the lock: an error reply ending with a
    lock-denied error. *)
Definition denied (r : nc_server_reply) : bool :=
  match r with
  | NC_RPL_ERROR errs =>
      match list.last errs with
      | Some (NcError (NC_ERR_LOCK_DENIED _) _) => true
      | _ => false
      end
  | NC_RPL_OK => false
  end.

(** Whether event [e] respects the lock on [ds], which [h] holds when [e]
    happens: while a session holds the lock every [op_lock] on [ds] is
    answered with a denial; with [strict], moreover, an [op_unlock] on [ds]
    is answered ok only to the session holding the lock. *)
Definition event_ok (strict : bool) (ds : sr_datastore_t) (e : event)
    (h : option nc_session) : bool :=
  match e with
  | EvReply n OP_LOCK (Some ds') r =>
      if decide (ds' = ds) then
        match h with
        | Some _ => denied r
        | None => true
        end
      else true
  | EvReply n OP_UNLOCK (Some ds') NC_RPL_OK =>
      if decide (ds' = ds) then negb strict || bool_decide (h = Some n)
      else true
  | _ => true
  end.

(** Every event of the trace respects the lock on [ds]. *)
Fixpoint exclusive (strict : bool) (ds : sr_datastore_t) (tr : list event) : bool :=
  match tr with
  | [] => true
  | e :: tr => event_ok strict ds e (holder ds tr) && exclusive strict ds tr
  end.

(** Every session is served by one thread, which takes its RPCs one after
    the other. *)
Definition one_thread_per_session (st : state) : Prop :=
  NoDup (w_ncs <$> workers st).

(** What a thread serving session [n] knows of its slot at [p]: after the
    write-locked check of [op_lock] the slot is free until line 116 and the
    caller's from then on; after the check of [op_unlock] the slot is the
    caller's until line 216 and free from then on.  In [op_unlock] the first
    part rests on the session not running a second call. *)
Definition own_fact (strict : Prop) (n : nc_session) (p : pc) (d : np2srv_dslock) : Prop :=
  match p with
  | LK_srlock ds | LK_set_dsl ds => get_dsl ds d = None
  | LK_set_dst ds | LK_ok_unlock ds => get_dsl ds d = Some n
  | UL_rdunlock ds | UL_wrlock ds | UL_srunlock ds | UL_discard ds
  | UL_clear_dsl ds => strict → get_dsl ds d = Some n
  | UL_clear_dst ds | UL_ok_unlock ds => get_dsl ds d = None
  | _ => True
  end.

Definition inv_own (st : state) : Prop :=
  ∀ k w, workers st !! k = Some w →
         own_fact (one_thread_per_session st) (w_ncs w) (w_pc w) (dslock (sh st)).

(** How the holder [h] by the replies relates to slot [ds] of the table
    while the thread at [p] holds the write lock: they agree, except between
    the write to the slot and the reply. *)
Definition log_view (strict : Prop) (n : nc_session) (p : pc)
    (ds : sr_datastore_t) (d : np2srv_dslock) (h : option nc_session) : Prop :=
  match p with
  | LK_set_dst ds' | LK_ok_unlock ds' =>
      if decide (ds' = ds) then h = None else h = get_dsl ds d
  | UL_clear_dst ds' | UL_ok_unlock ds' =>
      if decide (ds' = ds) then strict → h = Some n else h = get_dsl ds d
  | _ => h = get_dsl ds d
  end.

Definition inv_log (st : state) : Prop :=
  ∀ ds,
    (writer (dslock_rwl (sh st)) = None →
     holder ds (trace (sh st)) = get_dsl ds (dslock (sh st))) ∧
    (∀ k w, workers st !! k = Some w → writer (dslock_rwl (sh st)) = Some k →
            log_view (one_thread_per_session st) (w_ncs w) (w_pc w) ds
                     (dslock (sh st)) (holder ds (trace (sh st)))) ∧
    exclusive false ds (trace (sh st)) = true ∧
    (one_thread_per_session st → exclusive true ds (trace (sh st)) = true).

(** ** Sample inputs *)

Definition session1 : nc_session := NcSession 1.
Definition session2 : nc_session := NcSession 2.

(** A quiet server: nothing locked, the rwlock free, every sysrepo session
    on running. *)
Definition quiet : shared := Shared dslock_init rwl_free (λ _, SR_DS_RUNNING) [].

(** The same with running locked by session 1 since time 5. *)
Definition running_locked : shared :=
  Shared (Dslock (Some session1) 5 None 0 None 0) rwl_free (λ _, SR_DS_RUNNING) [].

(** Sysrepo accepts the call; the clock shows 1000. *)
Definition sr_ok : oracle := Oracle (OP_LOCK, "running") SR_ERR_OK [] 1000.

(** The error made of the sysrepo message [text]. *)
Definition sr_error (text : string) : nc_server_error :=
  NcError (NC_ERR_OP_FAILED NC_ERR_TYPE_APP) (Some (MSG_SR text)).

(** Sysrepo refuses the call and has queued the given errors. *)
Definition sr_fails (queued : list nc_server_error) : oracle :=
  Oracle (OP_LOCK, "running") 1 queued 1000.

(** An idle thread is handed the RPC [op] on [dsname]. *)
Definition rpc (op : rpc_op) (dsname : string) : oracle :=
  Oracle (op, dsname) SR_ERR_OK [] 1000.

(** [n] steps of thread [i], which is handed the RPC [op] on [dsname] if
    it is idle. *)
Definition call (i : tid) (op : rpc_op) (dsname : string) (n : nat)
    : list (tid * oracle) :=
  replicate n (i, rpc op dsname).

(** Session 1 locks candidate, session 2 is refused, session 1 unlocks,
    session 2 locks: one call after the other. *)
Definition in_turn : list (tid * oracle) :=
  call 0 OP_LOCK "candidate" 11 ++ call 1 OP_LOCK "candidate" 6 ++
  call 0 OP_UNLOCK "candidate" 11 ++ call 1 OP_LOCK "candidate" 11.

(** Two threads race for candidate: both pass the read-locked check, then
    thread 1 takes the write lock first. *)
Definition lock_race : list (tid * oracle) :=
  call 0 OP_LOCK "candidate" 5 ++ call 1 OP_LOCK "candidate" 5 ++
  call 1 OP_LOCK "candidate" 6 ++ call 0 OP_LOCK "candidate" 4.

(** Threads 0 and 1 both serve session 1, thread 2 serves session 2.
    Session 1 locks running; thread 0 starts to unlock and stops in front
    of the write lock; thread 1 unlocks; session 2 locks; thread 0 goes
    on. *)
Definition unlock_race : list (tid * oracle) :=
  call 0 OP_LOCK "running" 11 ++ call 0 OP_UNLOCK "running" 5 ++
  call 1 OP_UNLOCK "running" 11 ++ call 2 OP_LOCK "running" 11 ++
  call 0 OP_UNLOCK "running" 6.

(** Session 1 holds running.  Session 2 asks for it: [op_lock] finds the
    slot taken at the read-locked check of line 78, gives up the read lock
    at label lock_held (line 81) and stands before lines 82-84, where the
    reply is built. *)
Definition lock_refused_at_check : list (tid * oracle) :=
  call 0 OP_LOCK "running" 11 ++ call 1 OP_LOCK "running" 5.

(** From there session 1 unlocks running, then session 2 goes on. *)
Definition lock_denied_late : list (tid * oracle) :=
  lock_refused_at_check ++
  call 0 OP_UNLOCK "running" 11 ++ call 1 OP_LOCK "running" 1.

(** The same for an [op_unlock] of session 2: refused at the check of line
    180, it gives up the read lock at line 182 and stands before lines
    183-185. *)
Definition unlock_refused_at_check : list (tid * oracle) :=
  call 0 OP_LOCK "running" 11 ++ call 1 OP_UNLOCK "running" 5.

Definition unlock_denied_late : list (tid * oracle) :=
  unlock_refused_at_check ++
  call 0 OP_UNLOCK "running" 11 ++ call 1 OP_UNLOCK "running" 1.

(** ** Further vocabulary *)

(** The calls of [sr_session_switch_ds] in a trace. *)
Definition is_switch (e : event) : bool :=
  match e with
  | EvSwitchDs _ _ => true
  | _ => false
  end.

Definition switch_calls (tr : list event) : list event :=
  List.filter is_switch tr.

(** What a call of [op_lock] run with no other thread in between makes of a
    state with the rwlock free, for the target [ds]: lines 71-121 read from
    top to bottom, the rwlock being free again at every exit. *)
Definition lock_alone (ncs : nc_session) (ds : sr_datastore_t) (o : oracle)
    (s : shared) : shared :=
  let s := switch_ds ncs ds s in
  match get_dsl ds (dslock s) with
  | Some holder =>
      emit (EvReply ncs OP_LOCK (Some ds) (lock_denied (nc_id holder) MSG_LOCK_HELD)) s
  | None =>
      let s := emit (EvSrLock ncs (o_rc o)) s in
      if decide (o_rc o ≠ SR_ERR_OK) then
        emit (EvReply ncs OP_LOCK (Some ds)
                (sr_failure_reply (o_errors o) MSG_LOCK_FAILED))
             (emit (EvSrErrors ncs) s)
      else
        emit (EvReply ncs OP_LOCK (Some ds) NC_RPL_OK)
             (with_dslock (λ d, set_dst ds (o_time o) (set_dsl ds (Some ncs) d)) s)
  end.

(** The same for [op_unlock], lines 163-222. *)
Definition unlock_alone (ncs : nc_session) (ds : sr_datastore_t) (o : oracle)
    (s : shared) : shared :=
  let s := switch_ds ncs ds s in
  match get_dsl ds (dslock s) with
  | None =>
      emit (EvReply ncs OP_UNLOCK (Some ds) (protocol_error MSG_UNLOCK_INACTIVE)) s
  | Some holder =>
      if decide (holder ≠ ncs) then
        emit (EvReply ncs OP_UNLOCK (Some ds)
                (lock_denied (nc_id holder) MSG_UNLOCK_HELD)) s
      else
        let s := emit (EvSrUnlock ncs (o_rc o)) s in
        if decide (o_rc o ≠ SR_ERR_OK) then
          emit (EvReply ncs OP_UNLOCK (Some ds)
                  (sr_failure_reply (o_errors o) MSG_UNLOCK_FAILED))
               (emit (EvSrErrors ncs) s)
        else
          emit (EvReply ncs OP_UNLOCK (Some ds) NC_RPL_OK)
               (with_dslock (λ d, set_dst ds 0 (set_dsl ds None d))
                  (emit (EvSrDiscard ncs) s))
  end.

(** The number of statements a thread at [p] has before it at most until
    its call returns. *)
Definition remaining (p : pc) : nat :=
  match p with
  | Idle => 0
  | LK_entry _ | UL_entry _ => 10
  | LK_rdlock _ | UL_rdlock _ => 9
  | LK_rdcheck _ | UL_rdcheck _ => 8
  | LK_rdunlock _ | UL_rdunlock _ => 7
  | LK_wrlock _ | UL_wrlock _ => 6
  | LK_wrcheck _ | UL_srunlock _ => 5
  | LK_srlock _ | UL_discard _ => 4
  | LK_set_dsl _ | UL_clear_dsl _ => 3
  | LK_set_dst _ | UL_clear_dst _ => 2
  | LK_held_unlock _ | LK_fail_unlock _ | UL_other_unlock _ | UL_fail_unlock _ => 2
  | LK_ok_unlock _ | UL_ok_unlock _ => 1
  | LK_held_reply _ | LK_fail_reply _ | UL_other_reply _ | UL_fail_reply _
  | UL_inactive _ => 1
  end.

(** The rwlock is held by threads inside a critical section only: the
    writer is a thread at a write-locked program point, every reader a
    thread at a read-locked one. *)
Definition inv_held (st : state) : Prop :=
  (∀ k, writer (dslock_rwl (sh st)) = Some k →
        ∃ w, workers st !! k = Some w ∧
             (held_at (w_pc w) = HWrite ∨ held_at (w_pc w) = HEither)) ∧
  (∀ k, k ∈ readers (dslock_rwl (sh st)) →
        ∃ w, workers st !! k = Some w ∧
             (held_at (w_pc w) = HRead ∨ held_at (w_pc w) = HEither)).

(** Every session in the lock table is one the server serves. *)
Definition inv_served (st : state) : Prop :=
  ∀ ds n, get_dsl ds (dslock (sh st)) = Some n → n ∈ (w_ncs <$> workers st).

(** Thread 0 runs [op_lock] on candidate up to [sr_lock_datastore], which
    it is about to call under the write lock; thread 1 starts a call and
    stands in front of the read lock. *)
Definition writer_and_waiter : list (tid * oracle) :=
  call 0 OP_LOCK "candidate" 7 ++ call 1 OP_LOCK "candidate" 2.

(** Session 1 locks candidate, then runs [op_unlock] on it up to line 216,
    where it is about to clear the slot. *)
Definition clearing : list (tid * oracle) :=
  call 0 OP_LOCK "candidate" 11 ++ call 0 OP_UNLOCK "candidate" 8.

(** * Properties *)

(** ** Basic facts about the state and the rwlock *)

Lemma get_set_dsl ds v d : get_dsl ds (set_dsl ds v d) = v.
Proof. by destruct ds. Qed.

Lemma get_set_dsl_ne ds ds' v d : ds ≠ ds' → get_dsl ds' (set_dsl ds v d) = get_dsl ds' d.
Proof. by destruct ds, ds'. Qed.

Lemma get_dst_set_dsl ds ds' v d : get_dst ds' (set_dsl ds v d) = get_dst ds' d.
Proof. by destruct ds, ds'. Qed.

Lemma get_set_dst ds t d : get_dst ds (set_dst ds t d) = t.
Proof. by destruct ds. Qed.

Lemma get_set_dst_ne ds ds' t d : ds ≠ ds' → get_dst ds' (set_dst ds t d) = get_dst ds' d.
Proof. by destruct ds, ds'. Qed.

Lemma get_dsl_set_dst ds ds' t d : get_dsl ds' (set_dst ds t d) = get_dsl ds' d.
Proof. by destruct ds, ds'. Qed.

Lemma switch_ds_dslock ncs ds s : dslock (switch_ds ncs ds s) = dslock s.
Proof. unfold switch_ds. by case_decide. Qed.

Lemma switch_ds_rwl ncs ds s : dslock_rwl (switch_ds ncs ds s) = dslock_rwl s.
Proof. unfold switch_ds. by case_decide. Qed.

Lemma switch_ds_engine_calls ncs ds s :
  engine_calls (trace (switch_ds ncs ds s)) = engine_calls (trace s).
Proof. unfold switch_ds. by case_decide. Qed.

Lemma with_rwl_twice l l' s : with_rwl l (with_rwl l' s) = with_rwl l s.
Proof. done. Qed.

Lemma rdlock_free i : pthread_rwlock_rdlock i rwl_free = Some (Rwlock None {[i]}).
Proof. unfold pthread_rwlock_rdlock, rwl_free; simpl. by rewrite union_empty_r_L. Qed.

Lemma unlock_reader i : pthread_rwlock_unlock i (Rwlock None {[i]}) = rwl_free.
Proof.
  unfold pthread_rwlock_unlock, rwl_free; simpl. by rewrite difference_diag_L.
Qed.

Lemma wrlock_free i : pthread_rwlock_wrlock i rwl_free = Some (Rwlock (Some i) ∅).
Proof. unfold pthread_rwlock_wrlock, rwl_free; simpl. by case_decide; [|naive_solver]. Qed.

Lemma unlock_writer i : pthread_rwlock_unlock i (Rwlock (Some i) ∅) = rwl_free.
Proof. unfold pthread_rwlock_unlock, rwl_free; simpl. by case_decide. Qed.

Lemma target_ds_None dsname :
  target_ds dsname = None ↔
  dsname ≠ "running" ∧ dsname ≠ "startup" ∧ dsname ≠ "candidate".
Proof.
  unfold target_ds.
  destruct (String.eqb_spec dsname "running") as [->|?]; [naive_solver|].
  destruct (String.eqb_spec dsname "startup") as [->|?]; [naive_solver|].
  destruct (String.eqb_spec dsname "candidate") as [->|?]; naive_solver.
Qed.

Lemma with_rwl_free s : dslock_rwl s = rwl_free → with_rwl rwl_free s = s.
Proof. intros <-. by destruct s. Qed.

Lemma op_build_err_sr_Some r queued :
  op_build_err_sr (Some (NC_RPL_ERROR r)) queued = Some (NC_RPL_ERROR (r ++ queued)).
Proof.
  revert r. induction queued as [|e queued IH]; intros r; simpl.
  - by rewrite app_nil_r.
  - unfold op_build_err_sr in *. simpl. rewrite IH. by rewrite <-app_assoc.
Qed.

Lemma op_build_err_sr_None queued :
  op_build_err_sr None queued =
  match queued with
  | [] => None
  | _ => Some (NC_RPL_ERROR queued)
  end.
Proof.
  destruct queued as [|e queued]; [done|].
  unfold op_build_err_sr; simpl. apply (op_build_err_sr_Some [_]).
Qed.

(** The reply after a failed sysrepo call: the drained errors in order,
    then the lock-denied error with holder 0. *)
Lemma sr_failure_reply_eq queued m :
  sr_failure_reply queued m
  = NC_RPL_ERROR (queued ++ [NcError (NC_ERR_LOCK_DENIED 0) (Some m)]).
Proof.
  unfold sr_failure_reply. rewrite op_build_err_sr_None.
  by destruct queued.
Qed.

(** ** Running one call *)

Lemma run_thread_S fuel i ncs o p s :
  p ≠ Idle →
  run_thread (S fuel) i ncs o p s
  = '(p', s') ← thr_step i ncs o p s; run_thread fuel i ncs o p' s'.
Proof. by destruct p. Qed.

Lemma run_thread_Idle fuel i ncs o s : run_thread fuel i ncs o Idle s = Some s.
Proof. by destruct fuel. Qed.

Lemma steps_S n i ncs o p s :
  steps (S n) i ncs o p s = '(p', s') ← thr_step i ncs o p s; steps n i ncs o p' s'.
Proof. done. Qed.

Ltac exec_simpl :=
  cbn [mbind option_bind ret dslock dslock_rwl trace np2_ds
       with_rwl with_dslock emit].

(** Executes the next statement of the call under [run_thread] or
    [steps]. *)
Ltac exec :=
  exec_simpl;
  first [rewrite run_thread_S by done | rewrite steps_S];
  unfold thr_step; exec_simpl.

Ltac exec_done := exec_simpl; rewrite run_thread_Idle.

(** Both functions start alike: with a known target they reach the read
    lock with the sysrepo session switched to the target. *)
Lemma op_lock_entry i ncs dsname ds o s :
  target_ds dsname = Some ds →
  op_lock i ncs dsname o s
  = run_thread 9 i ncs o (LK_rdlock ds) (switch_ds ncs ds s).
Proof. intros Ht. unfold op_lock, call_fuel. exec. by rewrite Ht. Qed.

Lemma op_unlock_entry i ncs dsname ds o s :
  target_ds dsname = Some ds →
  op_unlock i ncs dsname o s
  = run_thread 9 i ncs o (UL_rdlock ds) (switch_ds ncs ds s).
Proof. intros Ht. unfold op_unlock, call_fuel. exec. by rewrite Ht. Qed.

(** From a free rwlock the thread takes the read lock and looks at the
    slot. *)
Lemma run_LK_rdlock f i ncs o ds s :
  dslock_rwl s = rwl_free →
  run_thread (S f) i ncs o (LK_rdlock ds) s
  = run_thread f i ncs o (LK_rdcheck ds) (with_rwl (Rwlock None {[i]}) s).
Proof. intros Hf. exec. by rewrite Hf, rdlock_free. Qed.

Lemma run_UL_rdlock f i ncs o ds s :
  dslock_rwl s = rwl_free →
  run_thread (S f) i ncs o (UL_rdlock ds) s
  = run_thread f i ncs o (UL_rdcheck ds) (with_rwl (Rwlock None {[i]}) s).
Proof. intros Hf. exec. by rewrite Hf, rdlock_free. Qed.

(** A passed read-locked check leaves the thread in front of the write
    lock, the rwlock free again: the gap of the double check. *)
Lemma run_LK_gap f i ncs o ds s :
  dslock_rwl s = rwl_free →
  get_dsl ds (dslock s) = None →
  run_thread (S (S (S f))) i ncs o (LK_rdlock ds) s
  = run_thread f i ncs o (LK_wrlock ds) s.
Proof.
  intros Hf Hn. rewrite run_LK_rdlock by done.
  exec. rewrite Hn. exec. rewrite unlock_reader.
  by rewrite with_rwl_twice, with_rwl_free.
Qed.

Lemma run_UL_gap f i ncs o ds s :
  dslock_rwl s = rwl_free →
  get_dsl ds (dslock s) = Some ncs →
  run_thread (S (S (S f))) i ncs o (UL_rdlock ds) s
  = run_thread f i ncs o (UL_wrlock ds) s.
Proof.
  intros Hf Hn. rewrite run_UL_rdlock by done.
  exec. rewrite Hn, decide_False by naive_solver. exec. rewrite unlock_reader.
  by rewrite with_rwl_twice, with_rwl_free.
Qed.

(** What follows a refused check in [op_lock] (label lock_held). *)
Lemma run_LK_held f i ncs o ds s :
  run_thread (S (S f)) i ncs o (LK_held_unlock ds) s
  = Some (emit (EvReply ncs OP_LOCK (Some ds)
                  (lock_denied (nc_session_get_id (get_dsl ds (dslock s))) MSG_LOCK_HELD))
               (with_rwl (pthread_rwlock_unlock i (dslock_rwl s)) s)).
Proof. exec. exec. by exec_done. Qed.

(** The write-locked part of [op_lock] from the gap. *)
Lemma run_LK_wrlock_held f i ncs o ds s holder :
  dslock_rwl s = rwl_free →
  get_dsl ds (dslock s) = Some holder →
  run_thread (S (S (S (S f)))) i ncs o (LK_wrlock ds) s
  = Some (emit (EvReply ncs OP_LOCK (Some ds) (lock_denied (nc_id holder) MSG_LOCK_HELD)) s).
Proof.
  intros Hf Hh. exec. rewrite Hf, wrlock_free.
  exec. rewrite Hh. exec_simpl. rewrite run_LK_held. exec_simpl.
  by rewrite Hh, unlock_writer, with_rwl_twice, with_rwl_free.
Qed.

Lemma run_LK_wrlock_fail f i ncs o ds s :
  dslock_rwl s = rwl_free →
  get_dsl ds (dslock s) = None →
  o_rc o ≠ SR_ERR_OK →
  run_thread (S (S (S (S (S f))))) i ncs o (LK_wrlock ds) s
  = Some (emit (EvReply ncs OP_LOCK (Some ds) (sr_failure_reply (o_errors o) MSG_LOCK_FAILED))
            (emit (EvSrErrors ncs) (emit (EvSrLock ncs (o_rc o)) s))).
Proof.
  intros Hf Hn Hrc. exec. rewrite Hf, wrlock_free.
  exec. rewrite Hn. exec. rewrite decide_True by done.
  exec. rewrite unlock_writer. exec. exec_done.
  destruct s; simpl in *; by subst.
Qed.

Lemma run_LK_commit f i ncs o ds s :
  run_thread (S (S (S f))) i ncs o (LK_set_dsl ds) s
  = Some (emit (EvReply ncs OP_LOCK (Some ds) NC_RPL_OK)
            (with_rwl (pthread_rwlock_unlock i (dslock_rwl s))
               (with_dslock (λ d, set_dst ds (o_time o) (set_dsl ds (Some ncs) d)) s))).
Proof. exec. exec. exec. by exec_done. Qed.

Lemma run_LK_wrlock_ok f i ncs o ds s :
  dslock_rwl s = rwl_free →
  get_dsl ds (dslock s) = None →
  o_rc o = SR_ERR_OK →
  run_thread (S (S (S (S (S (S f)))))) i ncs o (LK_wrlock ds) s
  = Some (emit (EvReply ncs OP_LOCK (Some ds) NC_RPL_OK)
            (with_dslock (λ d, set_dst ds (o_time o) (set_dsl ds (Some ncs) d))
               (emit (EvSrLock ncs (o_rc o)) s))).
Proof.
  intros Hf Hn Hrc. exec. rewrite Hf, wrlock_free.
  exec. rewrite Hn. exec. rewrite decide_False by naive_solver. exec_simpl.
  rewrite run_LK_commit. exec_simpl. rewrite unlock_writer.
  destruct s; simpl in *; by subst.
Qed.

(** The write-locked part of [op_unlock] from the sysrepo call on. *)
Lemma run_UL_srunlock_ok f i ncs o ds s :
  o_rc o = SR_ERR_OK →
  run_thread (S (S (S (S (S f))))) i ncs o (UL_srunlock ds) s
  = Some (emit (EvReply ncs OP_UNLOCK (Some ds) NC_RPL_OK)
            (with_rwl (pthread_rwlock_unlock i (dslock_rwl s))
               (with_dslock (λ d, set_dst ds 0 (set_dsl ds None d))
                  (emit (EvSrDiscard ncs) (emit (EvSrUnlock ncs (o_rc o)) s))))).
Proof.
  intros Hrc. exec. rewrite decide_False by naive_solver.
  exec. exec. exec. exec. by exec_done.
Qed.

Lemma run_UL_srunlock_fail f i ncs o ds s :
  o_rc o ≠ SR_ERR_OK →
  run_thread (S (S (S f))) i ncs o (UL_srunlock ds) s
  = Some (emit (EvReply ncs OP_UNLOCK (Some ds) (sr_failure_reply (o_errors o) MSG_UNLOCK_FAILED))
            (emit (EvSrErrors ncs)
               (with_rwl (pthread_rwlock_unlock i (dslock_rwl s))
                  (emit (EvSrUnlock ncs (o_rc o)) s)))).
Proof.
  intros Hrc. exec. rewrite decide_True by done.
  exec. exec. by exec_done.
Qed.

Lemma run_UL_wrlock f i ncs o ds s :
  dslock_rwl s = rwl_free →
  run_thread (S f) i ncs o (UL_wrlock ds) s
  = run_thread f i ncs o (UL_srunlock ds) (with_rwl (Rwlock (Some i) ∅) s).
Proof. intros Hf. exec. by rewrite Hf, wrlock_free. Qed.

Lemma engine_calls_cons e tr :
  engine_calls (e :: tr)
  = if is_engine_call e then e :: engine_calls tr else engine_calls tr.
Proof. done. Qed.

(** ** Unknown target *)

Lemma op_lock_invalid i ncs dsname o s :
  dsname ≠ "running" → dsname ≠ "startup" → dsname ≠ "candidate" →
  op_lock i ncs dsname o s
  = Some (emit (EvReply ncs OP_LOCK None (protocol_error MSG_EINT)) s).
Proof.
  intros Hr Hs Hc.
  assert (target_ds dsname = None) as Ht by by apply target_ds_None.
  unfold op_lock, call_fuel. exec. rewrite Ht. by exec_done.
Qed.

Lemma op_unlock_invalid i ncs dsname o s :
  dsname ≠ "running" → dsname ≠ "startup" → dsname ≠ "candidate" →
  op_unlock i ncs dsname o s
  = Some (emit (EvReply ncs OP_UNLOCK None (protocol_error MSG_EINT)) s).
Proof.
  intros Hr Hs Hc.
  assert (target_ds dsname = None) as Ht by by apply target_ds_None.
  unfold op_unlock, call_fuel. exec. rewrite Ht. by exec_done.
Qed.

(** C7: a target name other than running, startup and candidate makes both
    operations return the protocol error of the final [else] branch, in
    every state of the lock table and of the rwlock.  The reply is the only
    effect: the lock table is not touched and no call is made on the
    engine. *)
Theorem invalid_target_rejected (i : tid) (ncs : nc_session) (dsname : string)
    (o : oracle) (s : shared) :
  dsname ≠ "running" → dsname ≠ "startup" → dsname ≠ "candidate" →
  op_lock i ncs dsname o s
    = Some (emit (EvReply ncs OP_LOCK None (protocol_error MSG_EINT)) s) ∧
  op_unlock i ncs dsname o s
    = Some (emit (EvReply ncs OP_UNLOCK None (protocol_error MSG_EINT)) s).
Proof.
  intros Hr Hs Hc. split; [by apply op_lock_invalid | by apply op_unlock_invalid].
Qed.

Lemma invalid_target_rejected_witness :
  op_lock 0 session2 "unknown-store" sr_ok running_locked
    = Some (emit (EvReply session2 OP_LOCK None (protocol_error MSG_EINT)) running_locked) ∧
  op_unlock 0 session2 "unknown-store" sr_ok running_locked
    = Some (emit (EvReply session2 OP_UNLOCK None (protocol_error MSG_EINT)) running_locked).
Proof. by apply invalid_target_rejected. Defined.

(** ** Unlock refused by the read-locked check *)

(** Run with no other thread in between, [op_unlock] on a datastore that
    nobody has locked returns the protocol error "lock is not active"; on
    a datastore locked by another session it returns lock-denied with the
    id of that session.  In both cases the lock table is unchanged and no
    call is made on the engine. *)
Lemma unlock_not_owner_rejected (i : tid) (ncs : nc_session) (dsname : string)
    (ds : sr_datastore_t) (o : oracle) (s : shared) :
  target_ds dsname = Some ds →
  dslock_rwl s = rwl_free →
  (get_dsl ds (dslock s) = None →
   op_unlock i ncs dsname o s
   = Some (emit (EvReply ncs OP_UNLOCK (Some ds) (protocol_error MSG_UNLOCK_INACTIVE))
                (switch_ds ncs ds s))) ∧
  (∀ holder, get_dsl ds (dslock s) = Some holder → holder ≠ ncs →
   op_unlock i ncs dsname o s
   = Some (emit (EvReply ncs OP_UNLOCK (Some ds)
                         (lock_denied (nc_id holder) MSG_UNLOCK_HELD))
                (switch_ds ncs ds s))) ∧
  (get_dsl ds (dslock s) ≠ Some ncs →
   ∃ s', op_unlock i ncs dsname o s = Some s' ∧
         dslock s' = dslock s ∧
         engine_calls (trace s') = engine_calls (trace s)).
Proof.
  intros Ht Hf.
  assert (dslock_rwl (switch_ds ncs ds s) = rwl_free) as Hf1
    by by rewrite switch_ds_rwl.
  assert (get_dsl ds (dslock s) = None →
   op_unlock i ncs dsname o s
   = Some (emit (EvReply ncs OP_UNLOCK (Some ds) (protocol_error MSG_UNLOCK_INACTIVE))
                (switch_ds ncs ds s))) as Hnone.
  { intros Hn. rewrite (op_unlock_entry _ _ _ ds) by done.
    rewrite run_UL_rdlock by done.
    exec. rewrite switch_ds_dslock, Hn.
    exec. rewrite unlock_reader. exec_done.
    by rewrite with_rwl_twice, with_rwl_free. }
  assert (∀ holder, get_dsl ds (dslock s) = Some holder → holder ≠ ncs →
   op_unlock i ncs dsname o s
   = Some (emit (EvReply ncs OP_UNLOCK (Some ds)
                         (lock_denied (nc_id holder) MSG_UNLOCK_HELD))
                (switch_ds ncs ds s))) as Hother.
  { intros holder Hh Hne. rewrite (op_unlock_entry _ _ _ ds) by done.
    rewrite run_UL_rdlock by done.
    exec. rewrite switch_ds_dslock, Hh. rewrite decide_True by done.
    exec. rewrite unlock_reader.
    exec. rewrite switch_ds_dslock, Hh. exec_done.
    by rewrite with_rwl_twice, with_rwl_free. }
  split_and!; [done..|].
  intros Hne. destruct (get_dsl ds (dslock s)) as [holder|] eqn:Hh.
  - eexists. split; [apply Hother; [done | congruence]|].
    split; [apply switch_ds_dslock|]. apply switch_ds_engine_calls.
  - eexists. split; [by apply Hnone|].
    split; [apply switch_ds_dslock|]. apply switch_ds_engine_calls.
Qed.

Lemma unlock_not_owner_rejected_witness :
  op_unlock 0 session2 "candidate" sr_ok running_locked
  = Some (emit (EvReply session2 OP_UNLOCK (Some SR_DS_CANDIDATE)
                  (protocol_error MSG_UNLOCK_INACTIVE))
               (switch_ds session2 SR_DS_CANDIDATE running_locked)) ∧
  op_unlock 0 session2 "running" sr_ok running_locked
  = Some (emit (EvReply session2 OP_UNLOCK (Some SR_DS_RUNNING)
                  (lock_denied 1 MSG_UNLOCK_HELD))
               (switch_ds session2 SR_DS_RUNNING running_locked)).
Proof.
  split.
  - apply (unlock_not_owner_rejected 0 session2 "candidate" SR_DS_CANDIDATE
             sr_ok running_locked); reflexivity.
  - apply (proj1 (proj2 (unlock_not_owner_rejected 0 session2 "running"
             SR_DS_RUNNING sr_ok running_locked eq_refl eq_refl)) session1);
      [reflexivity | discriminate].
Defined.

(** C6, where the code departs from it: the id in the denial is read from
    the slot at lines 184-185, after the rwlock has been released at line
    182.  Session 1 holds running; the [op_unlock] of session 2 finds the
    slot owned by session 1 at the read-locked check and releases the read
    lock (first three lines); session 1 unlocks before the reply of session
    2 is built; the reply then is lock-denied with holder 0: neither the
    protocol error for a lock that is not active nor a denial with the id
    of the owning session.  The call of session 2 has made no call on the
    engine. *)
Theorem unlock_denied_without_owner :
  match run unlock_refused_at_check (init [session1; session2] (λ _, SR_DS_RUNNING)),
        run unlock_denied_late (init [session1; session2] (λ _, SR_DS_RUNNING)) with
  | Some st1, Some st =>
      get_dsl SR_DS_RUNNING (dslock (sh st1)) = Some session1 ∧
      workers st1 !! 1%nat = Some (Worker session2 (UL_other_reply SR_DS_RUNNING)) ∧
      dslock_rwl (sh st1) = rwl_free ∧
      trace (sh st)
      = [EvReply session2 OP_UNLOCK (Some SR_DS_RUNNING) (lock_denied 0 MSG_UNLOCK_HELD);
         EvReply session1 OP_UNLOCK (Some SR_DS_RUNNING) NC_RPL_OK;
         EvSrDiscard session1; EvSrUnlock session1 0;
         EvReply session1 OP_LOCK (Some SR_DS_RUNNING) NC_RPL_OK;
         EvSrLock session1 0] ∧
      last_reply (sh st) ≠ Some (lock_denied (nc_id session1) MSG_UNLOCK_HELD) ∧
      last_reply (sh st) ≠ Some (protocol_error MSG_UNLOCK_INACTIVE) ∧
      one_thread_per_session st
  | _, _ => False
  end.
Proof.
  vm_compute. split_and!; try done. apply (bool_decide_unpack _). by vm_compute.
Qed.

(** ** Failure of the sysrepo call *)

(** C3, as the code has it: when [sr_lock_datastore] fails although the
    slot is free, the reply carries the errors drained from the sysrepo
    error queue, in order, followed by a lock-denied error with holder 0;
    that last error is added whatever the queue held and stands alone when
    the queue was empty.  The lock table is unchanged, so the slot stays
    free. *)
Theorem lock_engine_failure (i : tid) (ncs : nc_session) (dsname : string)
    (ds : sr_datastore_t) (o : oracle) (s : shared) :
  target_ds dsname = Some ds →
  dslock_rwl s = rwl_free →
  get_dsl ds (dslock s) = None →
  o_rc o ≠ SR_ERR_OK →
  ∃ s', op_lock i ncs dsname o s = Some s' ∧
        trace s' = EvReply ncs OP_LOCK (Some ds)
                     (NC_RPL_ERROR (o_errors o ++
                        [NcError (NC_ERR_LOCK_DENIED 0) (Some MSG_LOCK_FAILED)]))
                   :: EvSrErrors ncs :: EvSrLock ncs (o_rc o)
                   :: trace (switch_ds ncs ds s) ∧
        dslock s' = dslock s ∧
        get_dsl ds (dslock s') = None.
Proof.
  intros Ht Hf Hn Hrc.
  rewrite (op_lock_entry _ _ _ ds) by done.
  rewrite run_LK_gap, run_LK_wrlock_fail
    by (by rewrite ?switch_ds_rwl, ?switch_ds_dslock).
  eexists; split; [done|]. exec_simpl.
  by rewrite sr_failure_reply_eq, switch_ds_dslock.
Qed.

Lemma lock_engine_failure_witness :
  ∃ s', op_lock 0 session1 "running" (sr_fails []) quiet = Some s' ∧
        trace s' = [EvReply session1 OP_LOCK (Some SR_DS_RUNNING)
                      (lock_denied 0 MSG_LOCK_FAILED);
                    EvSrErrors session1; EvSrLock session1 1] ∧
        dslock s' = dslock quiet ∧
        get_dsl SR_DS_RUNNING (dslock s') = None.
Proof.
  apply (lock_engine_failure 0 session1 "running" SR_DS_RUNNING (sr_fails []) quiet);
    [reflexivity | reflexivity | reflexivity | discriminate].
Defined.

(** C3 as the claim states it fails: with one message in the sysrepo error
    queue the reply still ends with the lock-denied error with holder 0. *)
Lemma lock_engine_failure_counterexample :
  o_errors (sr_fails [sr_error "boom"]) ≠ [] ∧
  last_reply <$> op_lock 0 session1 "running" (sr_fails [sr_error "boom"]) quiet
  = Some (Some (NC_RPL_ERROR
       [sr_error "boom";
        NcError (NC_ERR_LOCK_DENIED 0) (Some MSG_LOCK_FAILED)])).
Proof. split; [discriminate | by vm_compute]. Qed.

(** C10: when [sr_unlock_datastore] fails, the reply carries the errors
    drained from the sysrepo error queue followed by a lock-denied error
    with holder 0; the engine was asked to unlock and to hand over its
    errors but not to discard changes, and the lock table is unchanged: the
    session still holds the lock, taken at the same time. *)
Theorem unlock_engine_failure (i : tid) (ncs : nc_session) (dsname : string)
    (ds : sr_datastore_t) (o : oracle) (s : shared) :
  target_ds dsname = Some ds →
  dslock_rwl s = rwl_free →
  get_dsl ds (dslock s) = Some ncs →
  o_rc o ≠ SR_ERR_OK →
  ∃ s', op_unlock i ncs dsname o s = Some s' ∧
        trace s' = EvReply ncs OP_UNLOCK (Some ds)
                     (NC_RPL_ERROR (o_errors o ++
                        [NcError (NC_ERR_LOCK_DENIED 0) (Some MSG_UNLOCK_FAILED)]))
                   :: EvSrErrors ncs :: EvSrUnlock ncs (o_rc o)
                   :: trace (switch_ds ncs ds s) ∧
        engine_calls (trace s')
          = EvSrErrors ncs :: EvSrUnlock ncs (o_rc o) :: engine_calls (trace s) ∧
        dslock s' = dslock s ∧
        get_dsl ds (dslock s') = Some ncs ∧
        get_dst ds (dslock s') = get_dst ds (dslock s).
Proof.
  intros Ht Hf Hn Hrc.
  rewrite (op_unlock_entry _ _ _ ds) by done.
  rewrite run_UL_gap, run_UL_wrlock, run_UL_srunlock_fail
    by (by rewrite ?switch_ds_rwl, ?switch_ds_dslock).
  eexists; split; [done|]. exec_simpl.
  rewrite sr_failure_reply_eq, switch_ds_dslock.
  split_and!; try done.
  - rewrite !engine_calls_cons; cbn [is_engine_call].
    by rewrite switch_ds_engine_calls.
Qed.

Lemma unlock_engine_failure_witness :
  ∃ s', op_unlock 0 session1 "running" (sr_fails [sr_error "boom"]) running_locked = Some s' ∧
        trace s' = [EvReply session1 OP_UNLOCK (Some SR_DS_RUNNING)
                      (NC_RPL_ERROR
                         [sr_error "boom";
                          NcError (NC_ERR_LOCK_DENIED 0) (Some MSG_UNLOCK_FAILED)]);
                    EvSrErrors session1; EvSrUnlock session1 1] ∧
        engine_calls (trace s') = [EvSrErrors session1; EvSrUnlock session1 1] ∧
        dslock s' = dslock running_locked ∧
        get_dsl SR_DS_RUNNING (dslock s') = Some session1 ∧
        get_dst SR_DS_RUNNING (dslock s') = 5.
Proof.
  apply (unlock_engine_failure 0 session1 "running" SR_DS_RUNNING
           (sr_fails [sr_error "boom"]) running_locked);
    [reflexivity | reflexivity | reflexivity | discriminate].
Defined.

(** ** Successful calls *)

(** C5: when [op_unlock] gets to [sr_unlock_datastore] and sysrepo accepts,
    the engine is told to discard the changes of the session, whatever the
    datastore; then the session and the time of the slot are cleared and
    the reply is ok. *)
Theorem unlock_success (i : tid) (ncs : nc_session) (dsname : string)
    (ds : sr_datastore_t) (o : oracle) (s : shared) :
  target_ds dsname = Some ds →
  dslock_rwl s = rwl_free →
  get_dsl ds (dslock s) = Some ncs →
  o_rc o = SR_ERR_OK →
  ∃ s', op_unlock i ncs dsname o s = Some s' ∧
        trace s' = EvReply ncs OP_UNLOCK (Some ds) NC_RPL_OK
                   :: EvSrDiscard ncs :: EvSrUnlock ncs SR_ERR_OK
                   :: trace (switch_ds ncs ds s) ∧
        get_dsl ds (dslock s') = None ∧
        get_dst ds (dslock s') = 0 ∧
        dslock_rwl s' = rwl_free.
Proof.
  intros Ht Hf Hn Hrc.
  rewrite (op_unlock_entry _ _ _ ds) by done.
  rewrite run_UL_gap, run_UL_wrlock, run_UL_srunlock_ok
    by (by rewrite ?switch_ds_rwl, ?switch_ds_dslock).
  eexists; split; [done|]. exec_simpl.
  rewrite Hrc, get_dsl_set_dst, get_set_dsl, get_set_dst.
  split_and!; try done. apply unlock_writer.
Qed.

Lemma unlock_success_witness :
  ∃ s', op_unlock 0 session1 "running" sr_ok running_locked = Some s' ∧
        trace s' = [EvReply session1 OP_UNLOCK (Some SR_DS_RUNNING) NC_RPL_OK;
                    EvSrDiscard session1; EvSrUnlock session1 SR_ERR_OK] ∧
        get_dsl SR_DS_RUNNING (dslock s') = None ∧
        get_dst SR_DS_RUNNING (dslock s') = 0 ∧
        dslock_rwl s' = rwl_free.
Proof.
  apply (unlock_success 0 session1 "running" SR_DS_RUNNING sr_ok running_locked);
    reflexivity.
Defined.

(** C4: a call of [op_lock] answers ok exactly when the slot of its
    target is free and [sr_lock_datastore] succeeds, and it has then
    written one slot of the lock table, the one of its target: the session
    is the caller, the time is the current time, and the two other slots
    are as before.  Every other call answers with an error and has left
    the whole table as it was. *)
Theorem lock_frame (i : tid) (ncs : nc_session) (dsname : string)
    (o : oracle) (s : shared) :
  dslock_rwl s = rwl_free →
  ∃ s', op_lock i ncs dsname o s = Some s' ∧
        ((∃ ds, target_ds dsname = Some ds ∧
                get_dsl ds (dslock s) = None ∧ o_rc o = SR_ERR_OK ∧
                last_reply s' = Some NC_RPL_OK ∧
                get_dsl ds (dslock s') = Some ncs ∧
                get_dst ds (dslock s') = o_time o ∧
                ∀ ds', ds' ≠ ds →
                       get_dsl ds' (dslock s') = get_dsl ds' (dslock s) ∧
                       get_dst ds' (dslock s') = get_dst ds' (dslock s))
         ∨ (¬ (∃ ds, target_ds dsname = Some ds ∧
                     get_dsl ds (dslock s) = None ∧ o_rc o = SR_ERR_OK) ∧
            ∃ errs, last_reply s' = Some (NC_RPL_ERROR errs) ∧
                    dslock s' = dslock s)).
Proof.
  intros Hf.
  destruct (target_ds dsname) as [ds|] eqn:Ht.
  2:{ pose proof Ht as Hnone. apply target_ds_None in Ht as (? & ? & ?).
      rewrite op_lock_invalid by done.
      eexists. split; [done|]. right.
      split; [intros (ds & Hsome & _); congruence | by eexists]. }
  rewrite (op_lock_entry _ _ _ ds) by done.
  destruct (get_dsl ds (dslock s)) as [holder|] eqn:Hh.
  { rewrite run_LK_rdlock by by rewrite switch_ds_rwl.
    exec. rewrite switch_ds_dslock, Hh. exec_simpl. rewrite run_LK_held.
    eexists. split; [done|]. right.
    split; [intros (ds' & Hsome & Hfree & _); congruence|].
    eexists. split; [done|]. apply switch_ds_dslock. }
  rewrite run_LK_gap by (by rewrite ?switch_ds_rwl, ?switch_ds_dslock).
  destruct (decide (o_rc o = SR_ERR_OK)) as [Hrc|Hrc].
  - rewrite run_LK_wrlock_ok by (by rewrite ?switch_ds_rwl, ?switch_ds_dslock).
    eexists. split; [done|]. left.
    exists ds. exec_simpl. rewrite switch_ds_dslock.
    rewrite get_dsl_set_dst, get_set_dsl, get_set_dst.
    split_and!; try done.
    intros ds' Hne.
    by rewrite get_dsl_set_dst, get_set_dsl_ne, get_set_dst_ne, get_dst_set_dsl.
  - rewrite run_LK_wrlock_fail by (by rewrite ?switch_ds_rwl, ?switch_ds_dslock).
    eexists. split; [done|]. right.
    split; [by intros (ds' & _ & _ & Hok)|].
    rewrite sr_failure_reply_eq.
    eexists. split; [done|]. apply switch_ds_dslock.
Qed.

Lemma lock_frame_witness :
  ∃ s', op_lock 0 session2 "candidate" sr_ok running_locked = Some s' ∧
        last_reply s' = Some NC_RPL_OK ∧
        dslock s' = Dslock (Some session1) 5 None 0 (Some session2) 1000.
Proof.
  destruct (lock_frame 0 session2 "candidate" sr_ok running_locked eq_refl)
    as (s' & Hrun & [(ds & Ht & _ & _ & Hok & Hl & Htime & Hothers) | [Hno _]]).
  - exists s'. split_and!; [done..|].
    injection Ht as <-.
    destruct (Hothers SR_DS_RUNNING) as [Hr Hrt]; [done|].
    destruct (Hothers SR_DS_STARTUP) as [Hs Hst]; [done|].
    destruct (dslock s'); simpl in *. by subst.
  - exfalso. apply Hno. by exists SR_DS_CANDIDATE.
Defined.

(** ** The double check of op_lock and the single check of op_unlock *)

(** Run with no other thread in between, [op_lock] answers lock-denied
    with the id of the session in the slot whenever the slot is taken, at
    the read-locked check (first part) as well as at the write-locked one
    (third part).  The write-locked check comes after the read lock has
    been given up and the write lock taken: a free slot at the first check
    only brings the thread in front of the write lock with the rwlock free,
    where other threads may run (second part), and what the slot holds once
    the write lock is taken decides: taken, the call is denied without a
    call on the engine; free, the thread goes on to [sr_lock_datastore]
    (fourth part). *)
Lemma lock_denied_when_owned (i : tid) (ncs : nc_session) (o : oracle)
    (ds : sr_datastore_t) :
  (∀ dsname s holder,
     target_ds dsname = Some ds → dslock_rwl s = rwl_free →
     get_dsl ds (dslock s) = Some holder →
     op_lock i ncs dsname o s
     = Some (emit (EvReply ncs OP_LOCK (Some ds) (lock_denied (nc_id holder) MSG_LOCK_HELD))
                  (switch_ds ncs ds s))) ∧
  (∀ s, dslock_rwl s = rwl_free → get_dsl ds (dslock s) = None →
     steps 3 i ncs o (LK_rdlock ds) s = Some (LK_wrlock ds, s)) ∧
  (∀ s holder,
     dslock_rwl s = rwl_free → get_dsl ds (dslock s) = Some holder →
     run_thread 4 i ncs o (LK_wrlock ds) s
     = Some (emit (EvReply ncs OP_LOCK (Some ds) (lock_denied (nc_id holder) MSG_LOCK_HELD)) s)) ∧
  (∀ s, dslock_rwl s = rwl_free → get_dsl ds (dslock s) = None →
     steps 2 i ncs o (LK_wrlock ds) s
     = Some (LK_srlock ds, with_rwl (Rwlock (Some i) ∅) s)).
Proof.
  split_and!.
  - intros dsname s holder Ht Hf Hh.
    rewrite (op_lock_entry _ _ _ ds) by done.
    rewrite run_LK_rdlock by by rewrite switch_ds_rwl.
    exec. rewrite switch_ds_dslock, Hh. exec_simpl. rewrite run_LK_held.
    exec_simpl. rewrite switch_ds_dslock, Hh, unlock_reader.
    rewrite with_rwl_twice, with_rwl_free; [done|]. by rewrite switch_ds_rwl.
  - intros s Hf Hn. exec. rewrite Hf, rdlock_free.
    exec. rewrite Hn. exec. rewrite unlock_reader.
    by rewrite with_rwl_twice, with_rwl_free.
  - intros s holder Hf Hh. by apply run_LK_wrlock_held.
  - intros s Hf Hn. exec. rewrite Hf, wrlock_free. exec. by rewrite Hn.
Qed.

Lemma lock_denied_when_owned_witness :
  op_lock 1 session2 "running" sr_ok running_locked
  = Some (emit (EvReply session2 OP_LOCK (Some SR_DS_RUNNING) (lock_denied 1 MSG_LOCK_HELD))
               (switch_ds session2 SR_DS_RUNNING running_locked)) ∧
  steps 3 1 session2 sr_ok (LK_rdlock SR_DS_RUNNING) quiet
  = Some (LK_wrlock SR_DS_RUNNING, quiet) ∧
  run_thread 4 1 session2 sr_ok (LK_wrlock SR_DS_RUNNING) running_locked
  = Some (emit (EvReply session2 OP_LOCK (Some SR_DS_RUNNING) (lock_denied 1 MSG_LOCK_HELD))
               running_locked) ∧
  steps 2 1 session2 sr_ok (LK_wrlock SR_DS_RUNNING) quiet
  = Some (LK_srlock SR_DS_RUNNING, with_rwl (Rwlock (Some 1%nat) ∅) quiet).
Proof.
  pose proof (lock_denied_when_owned 1 session2 sr_ok SR_DS_RUNNING)
    as (H1 & H2 & H3 & H4).
  split_and!.
  - apply (H1 "running" running_locked session1); reflexivity.
  - apply (H2 quiet); reflexivity.
  - apply (H3 running_locked session1); reflexivity.
  - apply (H4 quiet); reflexivity.
Defined.

(** C2, where the code departs from it: the id in the denial is read from
    the slot at lines 83-84, after the rwlock has been released at line
    81.  Session 1 holds running; the [op_lock] of session 2 finds the slot
    taken by session 1 at the read-locked check and releases the read lock
    (first three lines); session 1 unlocks before the reply of session 2 is
    built; the reply then denies the lock with holder 0, the id of no
    session, and not with the id of session 1, the owner the check
    found. *)
Theorem lock_denied_without_owner :
  match run lock_refused_at_check (init [session1; session2] (λ _, SR_DS_RUNNING)),
        run lock_denied_late (init [session1; session2] (λ _, SR_DS_RUNNING)) with
  | Some st1, Some st =>
      get_dsl SR_DS_RUNNING (dslock (sh st1)) = Some session1 ∧
      workers st1 !! 1%nat = Some (Worker session2 (LK_held_reply SR_DS_RUNNING)) ∧
      dslock_rwl (sh st1) = rwl_free ∧
      trace (sh st)
      = [EvReply session2 OP_LOCK (Some SR_DS_RUNNING) (lock_denied 0 MSG_LOCK_HELD);
         EvReply session1 OP_UNLOCK (Some SR_DS_RUNNING) NC_RPL_OK;
         EvSrDiscard session1; EvSrUnlock session1 0;
         EvReply session1 OP_LOCK (Some SR_DS_RUNNING) NC_RPL_OK;
         EvSrLock session1 0] ∧
      last_reply (sh st) ≠ Some (lock_denied (nc_id session1) MSG_LOCK_HELD) ∧
      one_thread_per_session st
  | _, _ => False
  end.
Proof.
  vm_compute. split_and!; try done. apply (bool_decide_unpack _). by vm_compute.
Qed.

(** ** The server: steps and invariants *)

Lemma step_inv i o st st' :
  step (i, o) st = Some st' →
  ∃ w p' s',
    workers st !! i = Some w ∧
    thr_step i (w_ncs w) o (w_pc w) (sh st) = Some (p', s') ∧
    st' = State s' (<[i := Worker (w_ncs w) p']> (workers st)).
Proof.
  unfold step; simpl. intros Hs.
  destruct (workers st !! i) as [w|] eqn:Hw; simpl in Hs; [|done].
  destruct (thr_step i (w_ncs w) o (w_pc w) (sh st)) as [[p' s']|] eqn:Ht;
    simpl in Hs; [|done].
  exists w, p', s'. by simplify_eq.
Qed.

Lemma lookup_insert_worker (ws : list worker) i k w w' v :
  ws !! i = Some w →
  <[i := v]> ws !! k = Some w' →
  (k = i ∧ w' = v) ∨ (k ≠ i ∧ ws !! k = Some w').
Proof.
  intros Hi Hk. destruct (decide (k = i)) as [->|Hne].
  - left. split; [done|].
    rewrite list_lookup_insert_eq in Hk by by eapply lookup_lt_Some.
    by simplify_eq.
  - right. split; [done|]. by rewrite list_lookup_insert_ne in Hk.
Qed.

Lemma thr_step_rwl i ncs o p s p' s' :
  thr_step i ncs o p s = Some (p', s') →
  rwl_trans i (dslock_rwl s) (dslock_rwl s').
Proof.
  unfold rwl_trans, thr_step, ret. intros Hs.
  destruct p; repeat case_match; simplify_option_eq;
    rewrite ?switch_ds_rwl; eauto.
Qed.

Lemma rwl_trans_wf i l l' : rwl_wf l → rwl_trans i l l' → rwl_wf l'.
Proof.
  unfold rwl_wf, rwl_trans, pthread_rwlock_rdlock, pthread_rwlock_wrlock,
    pthread_rwlock_unlock.
  intros Hwf [ -> | [ H | [ H | -> ] ] ]; [done|..];
    repeat (case_decide || case_match); simplify_eq/=; try done.
  intros Hw. rewrite Hwf by done. set_solver.
Qed.

(** A step of thread [i] does not take from another thread what it
    holds. *)
Lemma rwl_trans_other i k q l l' :
  k ≠ i → rwl_wf l → rwl_trans i l l' → holds_ok k q l → holds_ok k q l'.
Proof.
  unfold rwl_wf, rwl_trans, holds_ok, pthread_rwlock_rdlock,
    pthread_rwlock_wrlock, pthread_rwlock_unlock.
  intros Hne Hwf [ -> | [ H | [ H | -> ] ] ] Hk; [done|..];
    destruct (held_at q); try done;
    repeat (case_decide || case_match); simplify_eq/=; destruct_and?;
    try set_solver.
Qed.

(** The stepping thread holds at its new program point what that point
    says. *)
Lemma thr_step_holds i ncs o p s p' s' :
  rwl_wf (dslock_rwl s) →
  holds_ok i p (dslock_rwl s) →
  thr_step i ncs o p s = Some (p', s') →
  holds_ok i p' (dslock_rwl s').
Proof.
  unfold rwl_wf, holds_ok, thr_step, ret, pthread_rwlock_rdlock,
    pthread_rwlock_wrlock.
  intros Hwf Hh Hs.
  destruct p; simpl in *; repeat (case_decide || case_match);
    simplify_option_eq; rewrite ?switch_ds_rwl; try done; try set_solver.
Qed.

Lemma inv_rwl_init pool ds0 : inv_rwl (init pool ds0).
Proof.
  split; [done|]. intros k w Hk. unfold init in Hk; simpl in Hk.
  rewrite list_lookup_fmap in Hk. by destruct (pool !! k); simplify_eq/=.
Qed.

Lemma inv_rwl_step lbl st st' : inv_rwl st → step lbl st = Some st' → inv_rwl st'.
Proof.
  destruct lbl as [i o]. intros [Hwf Hh] Hs.
  apply step_inv in Hs as (w & p' & s' & Hw & Ht & ->).
  pose proof (thr_step_rwl _ _ _ _ _ _ _ Ht) as Htr.
  split; simpl.
  - by eapply rwl_trans_wf.
  - intros k w' Hk.
    destruct (lookup_insert_worker _ _ _ _ _ _ Hw Hk) as [[-> ->]|[Hne Hk']];
      simpl.
    + eapply thr_step_holds; eauto.
    + eapply rwl_trans_other; eauto.
Qed.

Lemma run_inv (P : state → Prop) (Q : tid * oracle → Prop) sched st st' :
  (∀ lbl st st', Q lbl → P st → step lbl st = Some st' → P st') →
  Forall Q sched → P st → run sched st = Some st' → P st'.
Proof.
  intros Hstep HQ. revert st.
  induction HQ as [|lbl sched Hl HQ IH]; intros st HP Hr.
  - by simplify_eq/=.
  - simpl in Hr. destruct (step lbl st) as [st1|] eqn:Hs; [|done].
    eapply IH; [|exact Hr]. by eapply Hstep.
Qed.

(** Another thread holds the write lock after a step of [i] only if it
    held it before. *)
Lemma rwl_trans_writer i k l l' :
  k ≠ i → rwl_trans i l l' → writer l' = Some k → writer l = Some k.
Proof.
  unfold rwl_trans, pthread_rwlock_rdlock, pthread_rwlock_wrlock,
    pthread_rwlock_unlock.
  intros Hne [ -> | [ H | [ H | -> ] ] ] Hk; [done|..];
    repeat (case_decide || case_match); by simplify_eq/=.
Qed.

(** The lock table is written at four program points only, all of them
    under the write lock: lines 116 and 117 of [op_lock], lines 216 and 217
    of [op_unlock]. *)
Lemma thr_step_dslock i ncs o p s p' s' :
  thr_step i ncs o p s = Some (p', s') →
  dslock s' = dslock s ∨
  (∃ ds, p = LK_set_dsl ds ∧ p' = LK_set_dst ds ∧
         dslock s' = set_dsl ds (Some ncs) (dslock s)) ∨
  (∃ ds, p = LK_set_dst ds ∧ p' = LK_ok_unlock ds ∧
         dslock s' = set_dst ds (o_time o) (dslock s)) ∨
  (∃ ds, p = UL_clear_dsl ds ∧ p' = UL_clear_dst ds ∧
         dslock s' = set_dsl ds None (dslock s)) ∨
  (∃ ds, p = UL_clear_dst ds ∧ p' = UL_ok_unlock ds ∧
         dslock s' = set_dst ds 0 (dslock s)).
Proof.
  unfold thr_step, ret. intros Hs.
  destruct p; repeat case_match; simplify_option_eq;
    rewrite ?switch_ds_dslock; eauto 10.
Qed.

Lemma inv_slots_init pool ds0 : inv_slots (init pool ds0).
Proof.
  intros ds. split; [by destruct ds|].
  intros k w Hk _. unfold init in Hk; simpl in Hk.
  rewrite list_lookup_fmap in Hk.
  destruct (pool !! k); simplify_eq/=. by destruct ds.
Qed.

(** Case analysis on the program point [p] of the stepping thread: the
    step and what the invariants say at [p] are unfolded and simplified. *)
Ltac pc_cases p :=
  unfold thr_step, ret, holds_ok, rwl_wf,
    pthread_rwlock_rdlock, pthread_rwlock_wrlock, pthread_rwlock_unlock in *;
  destruct p; simpl in *;
  repeat (case_decide || case_match); simplify_option_eq;
  rewrite ?switch_ds_dslock, ?switch_ds_rwl in *.

Ltac dslock_simpl :=
  rewrite ?get_set_dsl, ?get_set_dst, ?get_dsl_set_dst, ?get_dst_set_dsl;
  rewrite ?get_set_dsl_ne, ?get_set_dst_ne by done.

(** A thread that writes the lock table holds the write lock. *)
Lemma thr_step_dslock_writer i ncs o p s p' s' :
  thr_step i ncs o p s = Some (p', s') →
  holds_ok i p (dslock_rwl s) →
  dslock s' = dslock s ∨ writer (dslock_rwl s) = Some i.
Proof.
  intros Ht Hi.
  destruct (thr_step_dslock _ _ _ _ _ _ _ Ht)
    as [ ? | [ (d & -> & _) | [ (d & -> & _) | [ (d & -> & _) | (d & -> & _) ] ] ] ];
    auto.
Qed.

Lemma inv_slots_step i o st st' :
  inv_rwl st → inv_slots st → o_time o ≠ 0 →
  step (i, o) st = Some st' → inv_slots st'.
Proof.
  intros [Hwf Hh] Hsl Hclock Hs.
  apply step_inv in Hs as ([n p] & p' & s' & Hw & Ht & ->); simpl in *.
  pose proof (Hh _ _ Hw) as Hi; simpl in Hi.
  intros ds. destruct (Hsl ds) as [Hfree Hheld].
  pose proof (Hheld _ _ Hw) as Hme; simpl in Hme.
  assert (∀ k w', k ≠ i → workers st !! k = Some w' →
                  writer (dslock_rwl s') = Some k →
                  slot_view (w_pc w') ds (dslock s')) as Hothers.
  { intros k w' Hne Hk Hwk.
    pose proof (thr_step_rwl _ _ _ _ _ _ _ Ht) as Htr.
    pose proof (rwl_trans_writer _ _ _ _ Hne Htr Hwk) as Hwk0.
    destruct (thr_step_dslock_writer _ _ _ _ _ _ _ Ht Hi) as [-> | ?];
      [by eapply Hheld | congruence]. }
  split; simpl.
  - intros Hw'. clear Hothers Hheld Hh Hsl Hw. unfold slot_view in *.
    pc_cases p; try (by auto); exfalso; by auto.
  - intros k w' Hk Hw'.
    destruct (lookup_insert_worker _ _ _ _ _ _ Hw Hk) as [[-> ->]|[Hne Hk']];
      [|by eapply Hothers].
    clear Hothers Hheld Hh Hsl Hw Hk. unfold slot_view in *.
    pc_cases p; try (by auto); try (exfalso; by auto);
      unfold slot_ok in *; dslock_simpl; naive_solver.
Qed.

(** *** The owner of a slot *)

Lemma step_sessions lbl st st' :
  step lbl st = Some st' → w_ncs <$> workers st' = w_ncs <$> workers st.
Proof.
  destruct lbl as [i o]. intros Hs.
  apply step_inv in Hs as (w & p' & s' & Hw & Ht & ->); simpl.
  rewrite list_fmap_insert; simpl. apply list_insert_id.
  by rewrite list_lookup_fmap, Hw.
Qed.

Lemma session_thread (ws : list worker) i k w w' :
  NoDup (w_ncs <$> ws) →
  ws !! i = Some w → ws !! k = Some w' → w_ncs w = w_ncs w' → i = k.
Proof.
  intros Hnd Hi Hk Heq.
  eapply NoDup_lookup; [exact Hnd| |].
  - by rewrite list_lookup_fmap, Hi.
  - by rewrite list_lookup_fmap, Hk, Heq.
Qed.

Lemma inv_own_init pool ds0 : inv_own (init pool ds0).
Proof.
  intros k w Hk. unfold init in Hk; simpl in Hk.
  rewrite list_lookup_fmap in Hk. by destruct (pool !! k); simplify_eq/=.
Qed.

(** Another thread's knowledge of its slot survives a write to the lock
    table: the writer holds the write lock, which leaves the other thread
    in front of the write lock of [op_unlock] at most, and there the two
    threads would serve the same session. *)
Lemma inv_own_step lbl st st' :
  inv_rwl st → inv_own st → step lbl st = Some st' → inv_own st'.
Proof.
  destruct lbl as [i o]. intros [Hwf Hh] Hown Hs.
  pose proof (step_sessions _ _ _ Hs) as Hsess.
  apply step_inv in Hs as ([n p] & p' & s' & Hw & Ht & ->); simpl in *.
  pose proof (Hh _ _ Hw) as Hi. pose proof (Hown _ _ Hw) as Hfi.
  simpl in Hi, Hfi.
  intros k [nk pk] Hk. unfold one_thread_per_session; simpl. rewrite Hsess.
  fold (one_thread_per_session st). simpl in Hk.
  destruct (lookup_insert_worker _ _ _ _ _ _ Hw Hk) as [[-> ?]|[Hne Hk']];
    simplify_eq.
  - (* the stepping thread *)
    clear Hk Hh Hown Hw Hsess. unfold own_fact in *.
    pc_cases p; dslock_simpl; try done; naive_solver.
  - (* another thread *)
    pose proof (Hh _ _ Hk') as Hhk. pose proof (Hown _ _ Hk') as Hfk.
    simpl in Hhk, Hfk.
    destruct (thr_step_dslock _ _ _ _ _ _ _ Ht)
      as [-> | [ (d & -> & _ & ->) | [ (d & -> & _ & ->)
         | [ (d & -> & _ & ->) | (d & -> & _ & ->) ] ] ] ]; [done|..];
      unfold holds_ok, own_fact in *; simpl in *.
    2, 4: by destruct pk; simpl in *; rewrite ?get_dsl_set_dst.
    all: destruct pk as [| | | | | | | | | ds'| | | ds'| ds'| ds'| | | | |
                         | | ds'| ds'| ds'| | | ds'| ds'| ds'| ds'];
      simpl in *; try done;
      (destruct (decide (d = ds')) as [->|?]; [|by rewrite get_set_dsl_ne]);
      rewrite get_set_dsl; try congruence;
      try (exfalso; rewrite Hwf in Hhk by congruence; set_solver).
    + (* line 116 against a thread in front of line 191 *)
      intros Hst. specialize (Hfk Hst). congruence.
    + (* line 216 against a thread in front of line 191 *)
      intros Hst. exfalso. apply Hne. symmetry.
      eapply session_thread; [exact Hst|exact Hw|exact Hk'|]; simpl.
      specialize (Hfk Hst). specialize (Hfi Hst). congruence.
Qed.

(** *** The replies agree with the lock table *)

(** A step made without the write lock changes neither the lock table nor
    the holder by the replies. *)
Lemma thr_step_quiet i ncs o p s p' s' :
  thr_step i ncs o p s = Some (p', s') →
  held_at p ≠ HWrite →
  dslock s' = dslock s ∧ ∀ ds, holder ds (trace s') = holder ds (trace s).
Proof.
  unfold thr_step, ret. intros Hs Hh.
  destruct p; simpl in Hh; try done;
    repeat case_match; simplify_option_eq; rewrite ?switch_ds_dslock;
    (split; [done|intros ds0]); try done.
  all: try (unfold switch_ds; by case_decide).
  all: by rewrite sr_failure_reply_eq.
Qed.

Lemma switch_ds_holder ncs ds ds' s :
  holder ds' (trace (switch_ds ncs ds s)) = holder ds' (trace s).
Proof. unfold switch_ds. by case_decide. Qed.

Lemma switch_ds_exclusive b ncs ds ds' s :
  exclusive b ds' (trace (switch_ds ncs ds s)) = exclusive b ds' (trace s).
Proof. unfold switch_ds. by case_decide. Qed.

Lemma inv_log_init pool ds0 : inv_log (init pool ds0).
Proof.
  intros ds. split_and!; try done.
  intros _. by destruct ds.
Qed.

Lemma inv_log_step lbl st st' :
  inv_rwl st → inv_own st → inv_log st → step lbl st = Some st' → inv_log st'.
Proof.
  destruct lbl as [i o]. intros [Hwf Hh] Hown Hlog Hs.
  pose proof (step_sessions _ _ _ Hs) as Hsess.
  apply step_inv in Hs as ([n p] & p' & s' & Hw & Ht & ->); simpl in *.
  pose proof (Hh _ _ Hw) as Hi. pose proof (Hown _ _ Hw) as Hfi.
  simpl in Hi, Hfi.
  intros ds. destruct (Hlog ds) as (Hfree & Hheld & Hex & Hexs).
  pose proof (Hheld _ _ Hw) as Hme; simpl in Hme.
  unfold one_thread_per_session; simpl. rewrite Hsess.
  fold (one_thread_per_session st).
  assert (∀ k w', k ≠ i → workers st !! k = Some w' →
            writer (dslock_rwl s') = Some k →
            log_view (one_thread_per_session st) (w_ncs w') (w_pc w') ds
              (dslock s') (holder ds (trace s'))) as Hothers.
  { intros k w' Hne Hk Hwk.
    pose proof (thr_step_rwl _ _ _ _ _ _ _ Ht) as Htr.
    pose proof (rwl_trans_writer _ _ _ _ Hne Htr Hwk) as Hwk0.
    destruct (thr_step_quiet _ _ _ _ _ _ _ Ht) as [-> ->].
    - intros Hhw. unfold holds_ok in Hi. rewrite Hhw in Hi. congruence.
    - by eapply Hheld. }
  split_and!.
  - (* no writer after the step *)
    intros Hw'. clear Hothers Hheld Hh Hown Hlog Hsess Hw Hex Hexs.
    unfold own_fact, log_view in *.
    pc_cases p; rewrite ?switch_ds_holder, ?sr_failure_reply_eq in *; by auto.
  - (* a writer after the step *)
    intros k w' Hk Hw'.
    destruct (lookup_insert_worker _ _ _ _ _ _ Hw Hk) as [[-> ->]|[Hne Hk']];
      [|by eapply Hothers].
    clear Hothers Hheld Hh Hown Hlog Hsess Hw Hk Hex Hexs.
    unfold own_fact, log_view in *.
    pc_cases p; rewrite ?switch_ds_holder, ?sr_failure_reply_eq in *;
      try (by auto); try (exfalso; by auto);
      dslock_simpl; intuition congruence.
  - (* the new reply respects the lock *)
    clear Hothers Hheld Hh Hown Hlog Hsess Hw Hexs.
    unfold own_fact, log_view in *.
    pc_cases p; rewrite ?switch_ds_exclusive, ?sr_failure_reply_eq in *;
      try (by auto);
      try (rewrite Hme by done); simpl;
      by destruct (holder ds (trace (sh st))); simpl; rewrite ?last_snoc, ?Hex.
  - (* and, with one thread per session, an unlock comes from the holder *)
    intros Hst. specialize (Hexs Hst).
    clear Hothers Hheld Hh Hown Hlog Hsess Hw Hex.
    unfold own_fact, log_view in *.
    pc_cases p; rewrite ?switch_ds_exclusive, ?sr_failure_reply_eq in *;
      try (by auto);
      try (rewrite Hme by done); simpl;
      try (by destruct (holder ds (trace (sh st))); simpl;
             rewrite ?last_snoc, ?Hexs);
      by rewrite bool_decide_true, Hexs.
Qed.

(** ** Reachable states *)

Lemma run_sessions sched st st' :
  run sched st = Some st' → w_ncs <$> workers st' = w_ncs <$> workers st.
Proof.
  revert st. induction sched as [|lbl sched IH]; intros st Hr; simpl in Hr.
  - by simplify_eq.
  - destruct (step lbl st) as [st1|] eqn:Hs; [|done]. simpl in Hr.
    rewrite (IH _ Hr). by eapply step_sessions.
Qed.

Lemma init_sessions pool ds0 : w_ncs <$> workers (init pool ds0) = pool.
Proof.
  unfold init; simpl. rewrite <-list_fmap_compose. apply list_fmap_id.
Qed.

Lemma run_init_inv pool ds0 sched st :
  run sched (init pool ds0) = Some st →
  inv_rwl st ∧ inv_own st ∧ inv_log st.
Proof.
  apply (run_inv (λ st, inv_rwl st ∧ inv_own st ∧ inv_log st) (λ _, True)).
  - intros lbl st0 st1 _ (Hrw & Hown & Hlog) Hs. split_and!.
    + by eapply inv_rwl_step.
    + by eapply inv_own_step.
    + by eapply inv_log_step.
  - by apply Forall_true.
  - split_and!; [apply inv_rwl_init | apply inv_own_init | apply inv_log_init].
Qed.

(** ** Mutual exclusion *)

(** After an [op_lock] on [ds] answered ok to [A], and as long as no
    [op_unlock] on [ds] is answered ok (with [strict]: to [A]), [A] is the
    holder of [ds] and every [op_lock] on [ds] is answered with a
    denial. *)
Lemma held_since strict ds A tr1 tr2 :
  exclusive strict ds (tr2 ++ EvReply A OP_LOCK (Some ds) NC_RPL_OK :: tr1) = true →
  (∀ X, EvReply X OP_UNLOCK (Some ds) NC_RPL_OK ∈ tr2 → strict = true ∧ X ≠ A) →
  holder ds (tr2 ++ EvReply A OP_LOCK (Some ds) NC_RPL_OK :: tr1) = Some A ∧
  ∀ B r, EvReply B OP_LOCK (Some ds) r ∈ tr2 → denied r = true.
Proof.
  induction tr2 as [|e tr2 IH]; intros Hex Hun.
  - split; [|by intros ?? ?%elem_of_nil]. simpl. by rewrite decide_True.
  - simpl in Hex. apply andb_true_iff in Hex as [He Hex].
    destruct (IH Hex) as [Hh Hden].
    { intros X HX. apply Hun. by right. }
    rewrite Hh in He.
    split.
    + destruct e as [| | | | |n [] [ds'|] [|errs]]; simpl; try done;
        case_decide; subst; try done.
      * simpl in He. by rewrite decide_True in He.
      * destruct (Hun n) as [-> Hne]; [by left|].
        simpl in He. rewrite decide_True in He by done. simpl in He.
        apply bool_decide_eq_true in He. congruence.
    + intros B r [<-|Hin]%elem_of_cons; [|by eapply Hden].
      simpl in He. by rewrite decide_True in He.
Qed.

(** C1: in every run of the server, after an [op_lock] on [ds] has been
    answered ok to session [A], every [op_lock] on [ds], by any session, is
    answered with a denial until an [op_unlock] on [ds] is answered ok
    (first part); so no second session is told that it holds the lock.
    When every session is served by one thread, only an [op_unlock] of [A]
    itself ends the denials (second part).  And whenever no thread is
    inside the write-locked section, the session in the slot is the one
    holding the lock by the replies (third part).  [tr2] are the events
    after the ok to [A], [tr1] those before. *)
Theorem mutual_exclusion (pool : list nc_session) (ds0 : nc_session → sr_datastore_t)
    (sched : list (tid * oracle)) (st : state) (ds : sr_datastore_t)
    (A : nc_session) (tr1 tr2 : list event) :
  run sched (init pool ds0) = Some st →
  trace (sh st) = tr2 ++ EvReply A OP_LOCK (Some ds) NC_RPL_OK :: tr1 →
  ((∀ X, EvReply X OP_UNLOCK (Some ds) NC_RPL_OK ∉ tr2) →
   ∀ B r, EvReply B OP_LOCK (Some ds) r ∈ tr2 → denied r = true) ∧
  (NoDup pool → EvReply A OP_UNLOCK (Some ds) NC_RPL_OK ∉ tr2 →
   ∀ B r, EvReply B OP_LOCK (Some ds) r ∈ tr2 → denied r = true) ∧
  (writer (dslock_rwl (sh st)) = None →
   get_dsl ds (dslock (sh st)) = holder ds (trace (sh st))).
Proof.
  intros Hr Htr.
  destruct (run_init_inv _ _ _ _ Hr) as (_ & _ & Hlog).
  destruct (Hlog ds) as (Hfree & _ & Hex & Hexs).
  rewrite Htr in Hex, Hexs.
  split_and!.
  - intros Hun. eapply held_since; [exact Hex|].
    intros X HX. by destruct (Hun X).
  - intros Hnd Hun. eapply held_since.
    + apply Hexs. unfold one_thread_per_session.
      by rewrite (run_sessions _ _ _ Hr), init_sessions.
    + intros X HX. split; [done|]. by intros ->.
  - intros Hw. symmetry. by apply Hfree.
Qed.

Lemma mutual_exclusion_witness :
  match run lock_race (init [session1; session2] (λ _, SR_DS_RUNNING)) with
  | Some st =>
      trace (sh st)
      = [EvReply session1 OP_LOCK (Some SR_DS_CANDIDATE) (lock_denied 2 MSG_LOCK_HELD)]
        ++ EvReply session2 OP_LOCK (Some SR_DS_CANDIDATE) NC_RPL_OK
        :: [EvSrLock session2 0;
            EvSwitchDs session2 SR_DS_CANDIDATE;
            EvSwitchDs session1 SR_DS_CANDIDATE] ∧
      denied (lock_denied 2 MSG_LOCK_HELD) = true ∧
      get_dsl SR_DS_CANDIDATE (dslock (sh st)) = Some session2
  | None => False
  end.
Proof.
  destruct (run lock_race (init [session1; session2] (λ _, SR_DS_RUNNING)))
    as [st|] eqn:Hr.
  - assert (trace (sh st)
      = [EvReply session1 OP_LOCK (Some SR_DS_CANDIDATE) (lock_denied 2 MSG_LOCK_HELD)]
        ++ EvReply session2 OP_LOCK (Some SR_DS_CANDIDATE) NC_RPL_OK
        :: [EvSrLock session2 0;
            EvSwitchDs session2 SR_DS_CANDIDATE;
            EvSwitchDs session1 SR_DS_CANDIDATE]) as Htr
      by (vm_compute in Hr; by injection Hr as <-).
    destruct (mutual_exclusion _ _ _ _ SR_DS_CANDIDATE _ _ _ Hr Htr)
      as (H1 & H2 & H3).
    split; [exact Htr|]. split.
    + apply (H2 ltac:(repeat constructor; set_solver)
                ltac:(set_solver) session1).
      set_solver.
    + rewrite H3, Htr; [reflexivity|].
      vm_compute in Hr. by injection Hr as <-.
  - vm_compute in Hr. discriminate.
Defined.

(** The check is not blind: two grants in a row break it, and so does, in
    the strict reading, an unlock granted to a session that does not hold
    the lock. *)
Example exclusive_rejects :
  exclusive false SR_DS_RUNNING
    [EvReply session2 OP_LOCK (Some SR_DS_RUNNING) NC_RPL_OK;
     EvReply session1 OP_LOCK (Some SR_DS_RUNNING) NC_RPL_OK] = false ∧
  exclusive true SR_DS_RUNNING
    [EvReply session2 OP_UNLOCK (Some SR_DS_RUNNING) NC_RPL_OK;
     EvReply session1 OP_LOCK (Some SR_DS_RUNNING) NC_RPL_OK] = false.
Proof. done. Qed.

(** ** Session and time of a slot *)

(** C8: the session and the time of a slot are set together and cleared
    together.  In every run of the server in which the clock never shows 0,
    whenever no thread is inside the write-locked section every slot has
    both or neither; and a step writes the lock table only at lines 116-117
    of [op_lock], which set the session and then the time, and at lines
    216-217 of [op_unlock], which clear the session and then the time. *)
Theorem owner_iff_time (pool : list nc_session) (ds0 : nc_session → sr_datastore_t)
    (sched : list (tid * oracle)) (st : state) :
  Forall (λ lbl, o_time lbl.2 ≠ 0) sched →
  run sched (init pool ds0) = Some st →
  (writer (dslock_rwl (sh st)) = None → ∀ ds, slot_ok ds (dslock (sh st))) ∧
  (∀ i ncs o p s p' s',
     thr_step i ncs o p s = Some (p', s') →
     dslock s' = dslock s ∨
     (∃ ds, p = LK_set_dsl ds ∧ p' = LK_set_dst ds ∧
            dslock s' = set_dsl ds (Some ncs) (dslock s)) ∨
     (∃ ds, p = LK_set_dst ds ∧ p' = LK_ok_unlock ds ∧
            dslock s' = set_dst ds (o_time o) (dslock s)) ∨
     (∃ ds, p = UL_clear_dsl ds ∧ p' = UL_clear_dst ds ∧
            dslock s' = set_dsl ds None (dslock s)) ∨
     (∃ ds, p = UL_clear_dst ds ∧ p' = UL_ok_unlock ds ∧
            dslock s' = set_dst ds 0 (dslock s))).
Proof.
  intros Hclock Hr. split; [|apply thr_step_dslock].
  assert (inv_rwl st ∧ inv_slots st) as [_ Hsl].
  { revert Hr.
    apply (run_inv (λ st, inv_rwl st ∧ inv_slots st) (λ lbl, o_time lbl.2 ≠ 0));
      [|done|].
    - intros [i o] st0 st1 Ho [Hrw Hsl] Hs. split.
      + by eapply inv_rwl_step.
      + by eapply inv_slots_step.
    - split; [apply inv_rwl_init | apply inv_slots_init]. }
  intros Hw ds. by apply (Hsl ds).
Qed.

Lemma owner_iff_time_witness :
  match run in_turn (init [session1; session2] (λ _, SR_DS_RUNNING)) with
  | Some st =>
      dslock (sh st) = Dslock None 0 None 0 (Some session2) 1000 ∧
      ∀ ds, slot_ok ds (dslock (sh st))
  | None => False
  end.
Proof.
  destruct (run in_turn (init [session1; session2] (λ _, SR_DS_RUNNING)))
    as [st|] eqn:Hr.
  - assert (Forall (λ lbl : tid * oracle, o_time lbl.2 ≠ 0) in_turn) as Hclock
      by (apply (bool_decide_unpack _); vm_compute; exact I).
    destruct (owner_iff_time _ _ _ _ Hclock Hr) as [H1 _].
    vm_compute in Hr. injection Hr as <-.
    split; [reflexivity|]. apply H1. reflexivity.
  - vm_compute in Hr. discriminate.
Defined.

(** ** No second check in op_unlock *)

(** C9: once [op_unlock] has passed its read-locked check it stands in
    front of the write lock with the rwlock free (first part); from there,
    whatever the slot holds by then, it takes the write lock and calls
    [sr_unlock_datastore] without looking at the slot again (second part),
    and when sysrepo accepts it clears the slot and answers ok, whoever was
    in the slot (third part).  [op_lock] from the same point looks at the
    slot again and, finding it taken, answers with a denial and makes no
    call on the engine (fourth part). *)
Theorem unlock_no_recheck (i : tid) (ncs : nc_session) (o : oracle)
    (ds : sr_datastore_t) :
  (∀ s, dslock_rwl s = rwl_free → get_dsl ds (dslock s) = Some ncs →
     steps 3 i ncs o (UL_rdlock ds) s = Some (UL_wrlock ds, s)) ∧
  (∀ s, dslock_rwl s = rwl_free →
     steps 2 i ncs o (UL_wrlock ds) s
     = Some (if decide (o_rc o ≠ SR_ERR_OK) then UL_fail_unlock ds else UL_discard ds,
             emit (EvSrUnlock ncs (o_rc o)) (with_rwl (Rwlock (Some i) ∅) s))) ∧
  (∀ s, dslock_rwl s = rwl_free → o_rc o = SR_ERR_OK →
     run_thread 6 i ncs o (UL_wrlock ds) s
     = Some (emit (EvReply ncs OP_UNLOCK (Some ds) NC_RPL_OK)
               (with_dslock (λ d, set_dst ds 0 (set_dsl ds None d))
                  (emit (EvSrDiscard ncs) (emit (EvSrUnlock ncs (o_rc o)) s))))) ∧
  (∀ s holder, dslock_rwl s = rwl_free → get_dsl ds (dslock s) = Some holder →
     run_thread 4 i ncs o (LK_wrlock ds) s
     = Some (emit (EvReply ncs OP_LOCK (Some ds) (lock_denied (nc_id holder) MSG_LOCK_HELD)) s)).
Proof.
  split_and!.
  - intros s Hf Hn. exec. rewrite Hf, rdlock_free.
    exec. rewrite Hn, decide_False by naive_solver.
    exec. rewrite unlock_reader.
    by rewrite with_rwl_twice, with_rwl_free.
  - intros s Hf. exec. rewrite Hf, wrlock_free. exec. by case_decide.
  - intros s Hf Hrc. rewrite run_UL_wrlock, run_UL_srunlock_ok by done.
    exec_simpl. rewrite unlock_writer.
    destruct s; simpl in *; by subst.
  - intros s holder Hf Hh. by apply run_LK_wrlock_held.
Qed.

Lemma unlock_no_recheck_witness :
  let taken := Shared (Dslock (Some session2) 7 None 0 None 0) rwl_free
                      (λ _, SR_DS_RUNNING) [] in
  steps 3 0 session1 sr_ok (UL_rdlock SR_DS_RUNNING) running_locked
  = Some (UL_wrlock SR_DS_RUNNING, running_locked) ∧
  steps 2 0 session1 sr_ok (UL_wrlock SR_DS_RUNNING) taken
  = Some (UL_discard SR_DS_RUNNING,
          emit (EvSrUnlock session1 0) (with_rwl (Rwlock (Some 0%nat) ∅) taken)) ∧
  run_thread 6 0 session1 sr_ok (UL_wrlock SR_DS_RUNNING) taken
  = Some (emit (EvReply session1 OP_UNLOCK (Some SR_DS_RUNNING) NC_RPL_OK)
            (with_dslock (λ d, set_dst SR_DS_RUNNING 0 (set_dsl SR_DS_RUNNING None d))
               (emit (EvSrDiscard session1) (emit (EvSrUnlock session1 0) taken)))) ∧
  run_thread 4 0 session1 sr_ok (LK_wrlock SR_DS_RUNNING) taken
  = Some (emit (EvReply session1 OP_LOCK (Some SR_DS_RUNNING) (lock_denied 2 MSG_LOCK_HELD))
               taken).
Proof.
  intros taken.
  pose proof (unlock_no_recheck 0 session1 sr_ok SR_DS_RUNNING)
    as (H1 & H2 & H3 & H4).
  split_and!.
  - apply (H1 running_locked); reflexivity.
  - apply (H2 taken); reflexivity.
  - apply (H3 taken); reflexivity.
  - apply (H4 taken session2); reflexivity.
Defined.

(** The same in a run of the server: two threads serve session 1; the one
    that stopped in front of the write lock clears the slot that session 2
    has locked in the meantime and is answered ok.  The replies still
    respect the lock in the plain reading, not in the strict one. *)
Example unlock_race_run :
  match run unlock_race (init [session1; session1; session2] (λ _, SR_DS_RUNNING)) with
  | Some st =>
      trace (sh st)
      = [EvReply session1 OP_UNLOCK (Some SR_DS_RUNNING) NC_RPL_OK;
         EvSrDiscard session1; EvSrUnlock session1 0;
         EvReply session2 OP_LOCK (Some SR_DS_RUNNING) NC_RPL_OK;
         EvSrLock session2 0;
         EvReply session1 OP_UNLOCK (Some SR_DS_RUNNING) NC_RPL_OK;
         EvSrDiscard session1; EvSrUnlock session1 0;
         EvReply session1 OP_LOCK (Some SR_DS_RUNNING) NC_RPL_OK;
         EvSrLock session1 0] ∧
      dslock (sh st) = dslock_init ∧
      exclusive false SR_DS_RUNNING (trace (sh st)) = true ∧
      exclusive true SR_DS_RUNNING (trace (sh st)) = false
  | None => False
  end.
Proof. by vm_compute. Qed.

(** The spec scenario, one call after the other. *)
Example in_turn_run :
  match run in_turn (init [session1; session2] (λ _, SR_DS_RUNNING)) with
  | Some st =>
      trace (sh st)
      = [EvReply session2 OP_LOCK (Some SR_DS_CANDIDATE) NC_RPL_OK;
         EvSrLock session2 0;
         EvReply session1 OP_UNLOCK (Some SR_DS_CANDIDATE) NC_RPL_OK;
         EvSrDiscard session1; EvSrUnlock session1 0;
         EvReply session2 OP_LOCK (Some SR_DS_CANDIDATE) (lock_denied 1 MSG_LOCK_HELD);
         EvSwitchDs session2 SR_DS_CANDIDATE;
         EvReply session1 OP_LOCK (Some SR_DS_CANDIDATE) NC_RPL_OK;
         EvSrLock session1 0;
         EvSwitchDs session1 SR_DS_CANDIDATE]
  | None => False
  end.
Proof. by vm_compute. Qed.

(** * Further properties *)

(** ** A call run alone *)

Lemma op_lock_alone i ncs dsname ds o s :
  target_ds dsname = Some ds → dslock_rwl s = rwl_free →
  op_lock i ncs dsname o s = Some (lock_alone ncs ds o s).
Proof.
  intros Ht Hf. unfold lock_alone; simpl.
  rewrite (op_lock_entry _ _ _ ds) by done.
  rewrite switch_ds_dslock.
  destruct (get_dsl ds (dslock s)) as [holder|] eqn:Hh.
  - rewrite run_LK_rdlock by by rewrite switch_ds_rwl.
    exec. rewrite switch_ds_dslock, Hh. exec_simpl. rewrite run_LK_held.
    exec_simpl. rewrite switch_ds_dslock, Hh, unlock_reader.
    rewrite with_rwl_twice, with_rwl_free; [done|]. by rewrite switch_ds_rwl.
  - rewrite run_LK_gap by (by rewrite ?switch_ds_rwl, ?switch_ds_dslock).
    case_decide as Hrc.
    + by rewrite run_LK_wrlock_fail
        by (by rewrite ?switch_ds_rwl, ?switch_ds_dslock).
    + rewrite run_LK_wrlock_ok; [done|by rewrite switch_ds_rwl
        |by rewrite switch_ds_dslock|]. by destruct (decide (o_rc o = SR_ERR_OK)).
Qed.

Lemma op_unlock_alone i ncs dsname ds o s :
  target_ds dsname = Some ds → dslock_rwl s = rwl_free →
  op_unlock i ncs dsname o s = Some (unlock_alone ncs ds o s).
Proof.
  intros Ht Hf. unfold unlock_alone; simpl.
  assert (dslock_rwl (switch_ds ncs ds s) = rwl_free) as Hf1
    by by rewrite switch_ds_rwl.
  rewrite (op_unlock_entry _ _ _ ds) by done.
  rewrite switch_ds_dslock.
  destruct (get_dsl ds (dslock s)) as [holder|] eqn:Hh.
  - case_decide as Hne.
    + rewrite run_UL_rdlock by done.
      exec. rewrite switch_ds_dslock, Hh. rewrite decide_True by done.
      exec. rewrite unlock_reader.
      exec. rewrite switch_ds_dslock, Hh. exec_done.
      by rewrite with_rwl_twice, with_rwl_free.
    + assert (holder = ncs) as -> by by destruct (decide (holder = ncs)).
      rewrite run_UL_gap, run_UL_wrlock by (by rewrite ?switch_ds_dslock).
      case_decide as Hrc.
      * rewrite run_UL_srunlock_fail by done. exec_simpl.
        rewrite unlock_writer.
        destruct (switch_ds ncs ds s); simpl in *; by subst.
      * rewrite run_UL_srunlock_ok
          by by destruct (decide (o_rc o = SR_ERR_OK)).
        exec_simpl. rewrite unlock_writer.
        destruct (switch_ds ncs ds s); simpl in *; by subst.
  - rewrite run_UL_rdlock by done.
    exec. rewrite switch_ds_dslock, Hh.
    exec. rewrite unlock_reader. exec_done.
    by rewrite with_rwl_twice, with_rwl_free.
Qed.

(** What a call run alone leaves of the parts of the state. *)
Lemma lock_alone_rwl ncs ds o s :
  dslock_rwl (lock_alone ncs ds o s) = dslock_rwl s.
Proof.
  unfold lock_alone; simpl.
  repeat (case_match || case_decide); simpl; by rewrite switch_ds_rwl.
Qed.

Lemma unlock_alone_rwl ncs ds o s :
  dslock_rwl (unlock_alone ncs ds o s) = dslock_rwl s.
Proof.
  unfold unlock_alone; simpl.
  repeat (case_match || case_decide); simpl; by rewrite switch_ds_rwl.
Qed.

Lemma lock_alone_np2 ncs ds o s :
  np2_ds (lock_alone ncs ds o s) = np2_ds (switch_ds ncs ds s).
Proof. unfold lock_alone; simpl. by repeat (case_match || case_decide). Qed.

Lemma unlock_alone_np2 ncs ds o s :
  np2_ds (unlock_alone ncs ds o s) = np2_ds (switch_ds ncs ds s).
Proof. unfold unlock_alone; simpl. by repeat (case_match || case_decide). Qed.

Lemma lock_alone_switch_calls ncs ds o s :
  switch_calls (trace (lock_alone ncs ds o s))
  = switch_calls (trace (switch_ds ncs ds s)).
Proof. unfold lock_alone; simpl. by repeat (case_match || case_decide). Qed.

Lemma unlock_alone_switch_calls ncs ds o s :
  switch_calls (trace (unlock_alone ncs ds o s))
  = switch_calls (trace (switch_ds ncs ds s)).
Proof. unfold unlock_alone; simpl. by repeat (case_match || case_decide). Qed.

Lemma switch_ds_effect ncs ds s :
  np2_ds (switch_ds ncs ds s) ncs = ds ∧
  (∀ n, n ≠ ncs → np2_ds (switch_ds ncs ds s) n = np2_ds s n) ∧
  switch_calls (trace (switch_ds ncs ds s))
  = (if decide (ds = np2_ds s ncs) then [] else [EvSwitchDs ncs ds])
    ++ switch_calls (trace s).
Proof.
  unfold switch_ds. destruct (decide (ds = np2_ds s ncs)) as [Hd|Hd]; simpl.
  - done.
  - rewrite decide_True by done. split; [done|]. split; [|done].
    intros n Hn. by rewrite decide_False.
Qed.

(** ** The sysrepo session follows the target *)

(** X1: every call with a known target, of [op_lock] as of [op_unlock] and
    whatever its reply, leaves the sysrepo session of the caller on the
    target datastore and those of the other sessions where they were;
    [sr_session_switch_ds] is called once if the session was on another
    datastore and not at all if it was on the target already. *)
Theorem call_switches_session (i : tid) (ncs : nc_session) (dsname : string)
    (ds : sr_datastore_t) (o : oracle) (s : shared) :
  target_ds dsname = Some ds →
  dslock_rwl s = rwl_free →
  ∃ sl su,
    op_lock i ncs dsname o s = Some sl ∧
    op_unlock i ncs dsname o s = Some su ∧
    ∀ s', s' = sl ∨ s' = su →
      np2_ds s' ncs = ds ∧
      (∀ n, n ≠ ncs → np2_ds s' n = np2_ds s n) ∧
      switch_calls (trace s')
      = (if decide (ds = np2_ds s ncs) then [] else [EvSwitchDs ncs ds])
        ++ switch_calls (trace s).
Proof.
  intros Ht Hf. eexists _, _.
  split; [by apply op_lock_alone|]. split; [by apply op_unlock_alone|].
  destruct (switch_ds_effect ncs ds s) as (H1 & H2 & H3).
  intros s' [->| ->].
  - by rewrite lock_alone_np2, lock_alone_switch_calls.
  - by rewrite unlock_alone_np2, unlock_alone_switch_calls.
Qed.

Lemma call_switches_session_witness :
  ∃ sl su,
    op_lock 0 session2 "candidate" sr_ok running_locked = Some sl ∧
    op_unlock 0 session2 "candidate" sr_ok running_locked = Some su ∧
    ∀ s', s' = sl ∨ s' = su →
      np2_ds s' session2 = SR_DS_CANDIDATE ∧
      (∀ n, n ≠ session2 → np2_ds s' n = SR_DS_RUNNING) ∧
      switch_calls (trace s') = [EvSwitchDs session2 SR_DS_CANDIDATE].
Proof.
  apply (call_switches_session 0 session2 "candidate" SR_DS_CANDIDATE sr_ok
           running_locked); reflexivity.
Defined.

(** ** When a call is granted *)

Lemma sr_failure_reply_not_ok queued m : sr_failure_reply queued m ≠ NC_RPL_OK.
Proof. by rewrite sr_failure_reply_eq. Qed.

(** X2: [op_lock] answers ok exactly when the target is a known datastore,
    its slot is free and sysrepo grants the lock; what other slots hold
    plays no part. *)
Theorem op_lock_ok_iff (i : tid) (ncs : nc_session) (dsname : string)
    (o : oracle) (s : shared) :
  dslock_rwl s = rwl_free →
  ∃ s', op_lock i ncs dsname o s = Some s' ∧
        (last_reply s' = Some NC_RPL_OK ↔
         ∃ ds, target_ds dsname = Some ds ∧
               get_dsl ds (dslock s) = None ∧ o_rc o = SR_ERR_OK).
Proof.
  intros Hf. destruct (target_ds dsname) as [ds|] eqn:Ht.
  - rewrite (op_lock_alone _ _ _ ds) by done. eexists. split; [done|].
    unfold lock_alone; simpl. rewrite switch_ds_dslock.
    pose proof (sr_failure_reply_not_ok (o_errors o) MSG_LOCK_FAILED).
    destruct (get_dsl ds (dslock s)) eqn:Hh; [|case_decide];
      unfold last_reply; simpl.
    + split; [done|]. intros (ds' & ? & ? & ?). congruence.
    + split; [congruence|]. intros (ds' & ? & ? & ?). congruence.
    + split; [|done]. intros _. by exists ds.
  - apply target_ds_None in Ht as (? & ? & ?).
    rewrite op_lock_invalid by done. eexists. split; [done|]. simpl.
    split; [done|]. intros (ds & Ht & _).
    assert (target_ds dsname = None) as Hn by by apply target_ds_None.
    congruence.
Qed.

Lemma op_lock_ok_iff_witness :
  ∃ s', op_lock 0 session2 "startup" sr_ok running_locked = Some s' ∧
        (last_reply s' = Some NC_RPL_OK ↔
         ∃ ds, target_ds "startup" = Some ds ∧
               get_dsl ds (dslock running_locked) = None ∧
               o_rc sr_ok = SR_ERR_OK).
Proof. apply (op_lock_ok_iff 0 session2 "startup" sr_ok running_locked). reflexivity. Defined.

(** X3: [op_unlock] answers ok exactly when the target is a known
    datastore, its slot holds the caller and sysrepo accepts the unlock. *)
Theorem op_unlock_ok_iff (i : tid) (ncs : nc_session) (dsname : string)
    (o : oracle) (s : shared) :
  dslock_rwl s = rwl_free →
  ∃ s', op_unlock i ncs dsname o s = Some s' ∧
        (last_reply s' = Some NC_RPL_OK ↔
         ∃ ds, target_ds dsname = Some ds ∧
               get_dsl ds (dslock s) = Some ncs ∧ o_rc o = SR_ERR_OK).
Proof.
  intros Hf. destruct (target_ds dsname) as [ds|] eqn:Ht.
  - rewrite (op_unlock_alone _ _ _ ds) by done. eexists. split; [done|].
    unfold unlock_alone; simpl. rewrite switch_ds_dslock.
    pose proof (sr_failure_reply_not_ok (o_errors o) MSG_UNLOCK_FAILED).
    destruct (get_dsl ds (dslock s)) as [holder|] eqn:Hh;
      repeat case_decide; unfold last_reply; simpl.
    + split; [done|]. intros (ds' & ? & ? & ?). congruence.
    + split; [congruence|]. intros (ds' & ? & ? & ?). congruence.
    + split; [|done]. intros _. exists ds.
      split_and!; [done | by rewrite Hh; f_equal | done].
    + split; [done|]. intros (ds' & ? & ? & ?). congruence.
  - apply target_ds_None in Ht as (? & ? & ?).
    rewrite op_unlock_invalid by done. eexists. split; [done|]. simpl.
    split; [done|]. intros (ds & Ht & _).
    assert (target_ds dsname = None) as Hn by by apply target_ds_None.
    congruence.
Qed.

Lemma op_unlock_ok_iff_witness :
  ∃ s', op_unlock 0 session1 "running" sr_ok running_locked = Some s' ∧
        (last_reply s' = Some NC_RPL_OK ↔
         ∃ ds, target_ds "running" = Some ds ∧
               get_dsl ds (dslock running_locked) = Some session1 ∧
               o_rc sr_ok = SR_ERR_OK).
Proof. apply (op_unlock_ok_iff 0 session1 "running" sr_ok running_locked). reflexivity. Defined.

(** ** What a call leaves alone *)

(** X4: a call of [op_unlock] answers ok exactly when the slot of its
    target holds the caller and [sr_unlock_datastore] succeeds, and it has
    then cleared one slot of the lock table, the one of its target, and set
    its time to 0, and left the two other slots as they were.  Every other
    call answers with an error and has left the whole table as it was. *)
Theorem unlock_frame (i : tid) (ncs : nc_session) (dsname : string)
    (o : oracle) (s : shared) :
  dslock_rwl s = rwl_free →
  ∃ s', op_unlock i ncs dsname o s = Some s' ∧
        ((∃ ds, target_ds dsname = Some ds ∧
                get_dsl ds (dslock s) = Some ncs ∧ o_rc o = SR_ERR_OK ∧
                last_reply s' = Some NC_RPL_OK ∧
                get_dsl ds (dslock s') = None ∧
                get_dst ds (dslock s') = 0 ∧
                ∀ ds', ds' ≠ ds →
                       get_dsl ds' (dslock s') = get_dsl ds' (dslock s) ∧
                       get_dst ds' (dslock s') = get_dst ds' (dslock s))
         ∨ (¬ (∃ ds, target_ds dsname = Some ds ∧
                     get_dsl ds (dslock s) = Some ncs ∧ o_rc o = SR_ERR_OK) ∧
            ∃ errs, last_reply s' = Some (NC_RPL_ERROR errs) ∧
                    dslock s' = dslock s)).
Proof.
  intros Hf. destruct (target_ds dsname) as [ds|] eqn:Ht.
  2:{ pose proof Ht as Hnone. apply target_ds_None in Ht as (? & ? & ?).
      rewrite op_unlock_invalid by done.
      eexists. split; [done|]. right.
      split; [intros (ds & Hsome & _); congruence | by eexists]. }
  rewrite (op_unlock_alone _ _ _ ds) by done. eexists. split; [done|].
  unfold unlock_alone; simpl. rewrite switch_ds_dslock.
  destruct (get_dsl ds (dslock s)) as [holder|] eqn:Hh;
    repeat case_decide; unfold last_reply; simpl;
    rewrite ?sr_failure_reply_eq, ?switch_ds_dslock.
  - right. split; [intros (ds' & Hsome & Hown & _); congruence | by eexists].
  - right. split; [by intros (ds' & _ & _ & Hok) | by eexists].
  - left. exists ds.
    rewrite get_dsl_set_dst, get_set_dsl, get_set_dst. split_and!; try done.
    + congruence.
    + intros ds' Hne.
      by rewrite get_dsl_set_dst, get_set_dsl_ne, get_set_dst_ne, get_dst_set_dsl.
  - right. split; [intros (ds' & Hsome & Hown & _); congruence | by eexists].
Qed.

Lemma unlock_frame_witness :
  ∃ s', op_unlock 0 session1 "running" sr_ok running_locked = Some s' ∧
        last_reply s' = Some NC_RPL_OK ∧
        dslock s' = Dslock None 0 None 0 None 0.
Proof.
  destruct (unlock_frame 0 session1 "running" sr_ok running_locked eq_refl)
    as (s' & Hrun & [(ds & Ht & _ & _ & Hok & Hl & Htime & Hothers) | [Hno _]]).
  - exists s'. split_and!; [done..|].
    injection Ht as <-.
    destruct (Hothers SR_DS_STARTUP) as [Hs Hst]; [done|].
    destruct (Hothers SR_DS_CANDIDATE) as [Hc Hct]; [done|].
    destruct (dslock s'); simpl in *. by subst.
  - exfalso. apply Hno. by exists SR_DS_RUNNING.
Defined.

(** ** Calls one after the other *)

Lemma lock_alone_granted ncs ds o s :
  get_dsl ds (dslock s) = None → o_rc o = SR_ERR_OK →
  last_reply (lock_alone ncs ds o s) = Some NC_RPL_OK ∧
  dslock (lock_alone ncs ds o s)
  = set_dst ds (o_time o) (set_dsl ds (Some ncs) (dslock s)).
Proof.
  intros Hn Hrc. unfold lock_alone; simpl. rewrite switch_ds_dslock, Hn.
  rewrite decide_False by naive_solver. simpl. by rewrite switch_ds_dslock.
Qed.

Lemma unlock_alone_granted ncs ds o s :
  get_dsl ds (dslock s) = Some ncs → o_rc o = SR_ERR_OK →
  last_reply (unlock_alone ncs ds o s) = Some NC_RPL_OK ∧
  dslock (unlock_alone ncs ds o s) = set_dst ds 0 (set_dsl ds None (dslock s)).
Proof.
  intros Hn Hrc. unfold unlock_alone; simpl. rewrite switch_ds_dslock, Hn.
  rewrite !decide_False by naive_solver. simpl. by rewrite switch_ds_dslock.
Qed.

Lemma lock_alone_refused ncs ds o s holder :
  get_dsl ds (dslock s) = Some holder →
  last_reply (lock_alone ncs ds o s)
  = Some (lock_denied (nc_id holder) MSG_LOCK_HELD) ∧
  dslock (lock_alone ncs ds o s) = dslock s ∧
  engine_calls (trace (lock_alone ncs ds o s)) = engine_calls (trace s).
Proof.
  intros Hh. unfold lock_alone; simpl. rewrite switch_ds_dslock, Hh. simpl.
  by rewrite switch_ds_dslock, switch_ds_engine_calls.
Qed.

Lemma unlock_alone_refused ncs ds o s holder :
  get_dsl ds (dslock s) = Some holder → holder ≠ ncs →
  last_reply (unlock_alone ncs ds o s)
  = Some (lock_denied (nc_id holder) MSG_UNLOCK_HELD) ∧
  dslock (unlock_alone ncs ds o s) = dslock s ∧
  engine_calls (trace (unlock_alone ncs ds o s)) = engine_calls (trace s).
Proof.
  intros Hh Hne. unfold unlock_alone; simpl. rewrite switch_ds_dslock, Hh.
  rewrite decide_True by done. simpl.
  by rewrite switch_ds_dslock, switch_ds_engine_calls.
Qed.

Lemma clear_after_set ds n t d :
  get_dsl ds d = None → get_dst ds d = 0 →
  set_dst ds 0 (set_dsl ds None (set_dst ds t (set_dsl ds (Some n) d))) = d.
Proof. destruct ds, d; simpl; by intros -> ->. Qed.

(** X5: a lock followed by the unlock of the same session gives the lock
    table back as it was before the lock, for a slot that was free with time
    0; after that another session is granted the lock. *)
Theorem lock_unlock_round_trip (i j : tid) (A B : nc_session) (dsname : string)
    (ds : sr_datastore_t) (o1 o2 o3 : oracle) (s : shared) :
  target_ds dsname = Some ds →
  dslock_rwl s = rwl_free →
  get_dsl ds (dslock s) = None → get_dst ds (dslock s) = 0 →
  o_rc o1 = SR_ERR_OK → o_rc o2 = SR_ERR_OK → o_rc o3 = SR_ERR_OK →
  ∃ s1 s2 s3,
    op_lock i A dsname o1 s = Some s1 ∧ last_reply s1 = Some NC_RPL_OK ∧
    op_unlock i A dsname o2 s1 = Some s2 ∧ last_reply s2 = Some NC_RPL_OK ∧
    dslock s2 = dslock s ∧
    op_lock j B dsname o3 s2 = Some s3 ∧ last_reply s3 = Some NC_RPL_OK ∧
    get_dsl ds (dslock s3) = Some B.
Proof.
  intros Ht Hf Hn Ht0 Hrc1 Hrc2 Hrc3.
  destruct (lock_alone_granted A ds o1 s Hn Hrc1) as [Hr1 Hd1].
  assert (get_dsl ds (dslock (lock_alone A ds o1 s)) = Some A) as Hh1
    by by rewrite Hd1, get_dsl_set_dst, get_set_dsl.
  destruct (unlock_alone_granted A ds o2 _ Hh1 Hrc2) as [Hr2 Hd2].
  assert (dslock (unlock_alone A ds o2 (lock_alone A ds o1 s)) = dslock s) as Hd
    by by rewrite Hd2, Hd1, clear_after_set.
  assert (get_dsl ds (dslock (unlock_alone A ds o2 (lock_alone A ds o1 s))) = None)
    as Hn2 by by rewrite Hd.
  destruct (lock_alone_granted B ds o3 _ Hn2 Hrc3) as [Hr3 Hd3].
  eexists _, _, _. split_and!.
  - by apply op_lock_alone.
  - done.
  - apply op_unlock_alone; [done|]. by rewrite lock_alone_rwl.
  - done.
  - done.
  - apply op_lock_alone; [done|]. by rewrite unlock_alone_rwl, lock_alone_rwl.
  - done.
  - by rewrite Hd3, get_dsl_set_dst, get_set_dsl.
Qed.

Lemma lock_unlock_round_trip_witness :
  ∃ s1 s2 s3,
    op_lock 0 session1 "candidate" sr_ok quiet = Some s1 ∧
    last_reply s1 = Some NC_RPL_OK ∧
    op_unlock 0 session1 "candidate" sr_ok s1 = Some s2 ∧
    last_reply s2 = Some NC_RPL_OK ∧
    dslock s2 = dslock quiet ∧
    op_lock 1 session2 "candidate" sr_ok s2 = Some s3 ∧
    last_reply s3 = Some NC_RPL_OK ∧
    get_dsl SR_DS_CANDIDATE (dslock s3) = Some session2.
Proof.
  apply (lock_unlock_round_trip 0 1 session1 session2 "candidate"
           SR_DS_CANDIDATE sr_ok sr_ok sr_ok quiet); reflexivity.
Defined.

(** X6: calls of another session do not disturb the holder.  While [A]
    holds the lock on a datastore, an [op_lock] and then an [op_unlock] of
    another session [B] on it are both answered lock-denied with the id of
    [A], leave the lock table as it is and make no call on the engine; the
    [op_unlock] of [A] that follows is answered ok and frees the slot. *)
Theorem refusals_keep_holder (i j : tid) (A B : nc_session) (dsname : string)
    (ds : sr_datastore_t) (o1 o2 o3 : oracle) (s : shared) :
  target_ds dsname = Some ds →
  dslock_rwl s = rwl_free →
  get_dsl ds (dslock s) = Some A → B ≠ A →
  o_rc o3 = SR_ERR_OK →
  ∃ s1 s2 s3,
    op_lock j B dsname o1 s = Some s1 ∧
    last_reply s1 = Some (lock_denied (nc_id A) MSG_LOCK_HELD) ∧
    op_unlock j B dsname o2 s1 = Some s2 ∧
    last_reply s2 = Some (lock_denied (nc_id A) MSG_UNLOCK_HELD) ∧
    dslock s2 = dslock s ∧
    engine_calls (trace s2) = engine_calls (trace s) ∧
    op_unlock i A dsname o3 s2 = Some s3 ∧
    last_reply s3 = Some NC_RPL_OK ∧
    get_dsl ds (dslock s3) = None.
Proof.
  intros Ht Hf Hh Hne Hrc3.
  destruct (lock_alone_refused B ds o1 s A Hh) as (Hr1 & Hd1 & He1).
  assert (get_dsl ds (dslock (lock_alone B ds o1 s)) = Some A) as Hh1
    by by rewrite Hd1.
  destruct (unlock_alone_refused B ds o2 _ A Hh1) as (Hr2 & Hd2 & He2);
    [done|].
  assert (get_dsl ds (dslock (unlock_alone B ds o2 (lock_alone B ds o1 s))) = Some A)
    as Hh2 by by rewrite Hd2.
  destruct (unlock_alone_granted A ds o3 _ Hh2 Hrc3) as [Hr3 Hd3].
  eexists _, _, _. split_and!.
  - by apply op_lock_alone.
  - done.
  - apply op_unlock_alone; [done|]. by rewrite lock_alone_rwl.
  - done.
  - by rewrite Hd2.
  - by rewrite He2.
  - apply op_unlock_alone; [done|]. by rewrite unlock_alone_rwl, lock_alone_rwl.
  - done.
  - by rewrite Hd3, get_dsl_set_dst, get_set_dsl.
Qed.

Lemma refusals_keep_holder_witness :
  ∃ s1 s2 s3,
    op_lock 1 session2 "running" sr_ok running_locked = Some s1 ∧
    last_reply s1 = Some (lock_denied 1 MSG_LOCK_HELD) ∧
    op_unlock 1 session2 "running" sr_ok s1 = Some s2 ∧
    last_reply s2 = Some (lock_denied 1 MSG_UNLOCK_HELD) ∧
    dslock s2 = dslock running_locked ∧
    engine_calls (trace s2) = engine_calls (trace running_locked) ∧
    op_unlock 0 session1 "running" sr_ok s2 = Some s3 ∧
    last_reply s3 = Some NC_RPL_OK ∧
    get_dsl SR_DS_RUNNING (dslock s3) = None.
Proof.
  apply (refusals_keep_holder 0 1 session1 session2 "running" SR_DS_RUNNING
           sr_ok sr_ok sr_ok running_locked);
    [reflexivity | reflexivity | reflexivity | discriminate | reflexivity].
Defined.

(** X7: an unlock cannot be repeated.  After an [op_unlock] answered ok, a
    second [op_unlock] of the same session on the same datastore is answered
    with the protocol error "lock is not active", whatever sysrepo would
    say: it makes no call on the engine and leaves the lock table as the
    first unlock left it. *)
Theorem unlock_twice (i : tid) (A : nc_session) (dsname : string)
    (ds : sr_datastore_t) (o1 o2 : oracle) (s : shared) :
  target_ds dsname = Some ds →
  dslock_rwl s = rwl_free →
  get_dsl ds (dslock s) = Some A →
  o_rc o1 = SR_ERR_OK →
  ∃ s1 s2,
    op_unlock i A dsname o1 s = Some s1 ∧ last_reply s1 = Some NC_RPL_OK ∧
    op_unlock i A dsname o2 s1 = Some s2 ∧
    last_reply s2 = Some (protocol_error MSG_UNLOCK_INACTIVE) ∧
    dslock s2 = dslock s1 ∧
    engine_calls (trace s2) = engine_calls (trace s1).
Proof.
  intros Ht Hf Hh Hrc.
  destruct (unlock_alone_granted A ds o1 s Hh Hrc) as [Hr1 Hd1].
  eexists _, _. split_and!.
  - by apply op_unlock_alone.
  - done.
  - apply op_unlock_alone; [done|]. by rewrite unlock_alone_rwl.
  - unfold unlock_alone at 1; simpl.
    by rewrite switch_ds_dslock, Hd1, get_dsl_set_dst, get_set_dsl.
  - unfold unlock_alone at 1; simpl.
    rewrite switch_ds_dslock, Hd1, get_dsl_set_dst, get_set_dsl; simpl.
    by rewrite switch_ds_dslock, Hd1.
  - unfold unlock_alone at 1; simpl.
    rewrite switch_ds_dslock, Hd1, get_dsl_set_dst, get_set_dsl; simpl.
    by rewrite switch_ds_engine_calls.
Qed.

Lemma unlock_twice_witness :
  ∃ s1 s2,
    op_unlock 0 session1 "running" sr_ok running_locked = Some s1 ∧
    last_reply s1 = Some NC_RPL_OK ∧
    op_unlock 0 session1 "running" sr_ok s1 = Some s2 ∧
    last_reply s2 = Some (protocol_error MSG_UNLOCK_INACTIVE) ∧
    dslock s2 = dslock s1 ∧
    engine_calls (trace s2) = engine_calls (trace s1).
Proof.
  apply (unlock_twice 0 session1 "running" SR_DS_RUNNING sr_ok sr_ok
           running_locked); reflexivity.
Defined.

(** ** Calls on different datastores *)

(** What a call on [ds] answers depends on slot [ds] of the table only,
    and it leaves the table alone or writes slot [ds] and its time. *)
Lemma alone_shape (op : rpc_op) ncs ds o :
  ∃ (write : option nc_session → option (option nc_session * Z))
    (answer : option nc_session → nc_server_reply),
    ∀ s, let s' := match op with
                   | OP_LOCK => lock_alone ncs ds o s
                   | OP_UNLOCK => unlock_alone ncs ds o s
                   end in
         dslock s' = match write (get_dsl ds (dslock s)) with
                     | None => dslock s
                     | Some (v, t) => set_dst ds t (set_dsl ds v (dslock s))
                     end ∧
         last_reply s' = Some (answer (get_dsl ds (dslock s))).
Proof.
  destruct op.
  - exists (λ h, match h with
                 | Some _ => None
                 | None => if decide (o_rc o ≠ SR_ERR_OK) then None
                           else Some (Some ncs, o_time o)
                 end),
           (λ h, match h with
                 | Some holder => lock_denied (nc_id holder) MSG_LOCK_HELD
                 | None => if decide (o_rc o ≠ SR_ERR_OK)
                           then sr_failure_reply (o_errors o) MSG_LOCK_FAILED
                           else NC_RPL_OK
                 end).
    intros s. unfold lock_alone, last_reply; cbn zeta.
    rewrite switch_ds_dslock.
    destruct (get_dsl ds (dslock s)); [by rewrite <-(switch_ds_dslock ncs ds s)|].
    case_decide; simpl; by rewrite switch_ds_dslock.
  - exists (λ h, match h with
                 | None => None
                 | Some holder =>
                     if decide (holder ≠ ncs) then None
                     else if decide (o_rc o ≠ SR_ERR_OK) then None
                          else Some (None, 0)
                 end),
           (λ h, match h with
                 | None => protocol_error MSG_UNLOCK_INACTIVE
                 | Some holder =>
                     if decide (holder ≠ ncs)
                     then lock_denied (nc_id holder) MSG_UNLOCK_HELD
                     else if decide (o_rc o ≠ SR_ERR_OK)
                          then sr_failure_reply (o_errors o) MSG_UNLOCK_FAILED
                          else NC_RPL_OK
                 end).
    intros s. unfold unlock_alone, last_reply; cbn zeta.
    rewrite switch_ds_dslock.
    destruct (get_dsl ds (dslock s)); [|by rewrite <-(switch_ds_dslock ncs ds s)].
    repeat case_decide; simpl; by rewrite switch_ds_dslock.
Qed.

Lemma set_slots_commute ds1 ds2 v1 t1 v2 t2 d :
  ds1 ≠ ds2 →
  set_dst ds2 t2 (set_dsl ds2 v2 (set_dst ds1 t1 (set_dsl ds1 v1 d)))
  = set_dst ds1 t1 (set_dsl ds1 v1 (set_dst ds2 t2 (set_dsl ds2 v2 d))).
Proof. by destruct ds1, ds2, d. Qed.

Lemma get_dsl_other_slot ds1 ds2 v t d :
  ds1 ≠ ds2 → get_dsl ds1 (set_dst ds2 t (set_dsl ds2 v d)) = get_dsl ds1 d.
Proof. intros Hne. rewrite get_dsl_set_dst. by apply get_set_dsl_ne. Qed.

(** Two functions on the state of which each answers by its own slot and
    writes its own slot only. *)
Lemma shape_commute (fA fB : shared → shared) dsA dsB
    (wA wB : option nc_session → option (option nc_session * Z))
    (rA rB : option nc_session → nc_server_reply) :
  dsA ≠ dsB →
  (∀ s, dslock (fA s) = match wA (get_dsl dsA (dslock s)) with
                        | None => dslock s
                        | Some (v, t) => set_dst dsA t (set_dsl dsA v (dslock s))
                        end ∧
        last_reply (fA s) = Some (rA (get_dsl dsA (dslock s)))) →
  (∀ s, dslock (fB s) = match wB (get_dsl dsB (dslock s)) with
                        | None => dslock s
                        | Some (v, t) => set_dst dsB t (set_dsl dsB v (dslock s))
                        end ∧
        last_reply (fB s) = Some (rB (get_dsl dsB (dslock s)))) →
  ∀ s, last_reply (fA (fB s)) = last_reply (fA s) ∧
       last_reply (fB (fA s)) = last_reply (fB s) ∧
       dslock (fB (fA s)) = dslock (fA (fB s)).
Proof.
  intros Hne HsA HsB s. split_and!.
  - destruct (HsA (fB s)) as [_ ->]. destruct (HsA s) as [_ ->].
    destruct (HsB s) as [-> _].
    destruct (wB (get_dsl dsB (dslock s))) as [[v t]|]; [|done].
    by rewrite get_dsl_other_slot.
  - destruct (HsB (fA s)) as [_ ->]. destruct (HsB s) as [_ ->].
    destruct (HsA s) as [-> _].
    destruct (wA (get_dsl dsA (dslock s))) as [[v t]|]; [|done].
    by rewrite get_dsl_other_slot.
  - destruct (HsB (fA s)) as [-> _]. destruct (HsA (fB s)) as [-> _].
    destruct (HsA s) as [-> _]. destruct (HsB s) as [-> _].
    destruct (wA (get_dsl dsA (dslock s))) as [[vA tA]|] eqn:HwA,
             (wB (get_dsl dsB (dslock s))) as [[vB tB]|] eqn:HwB;
      rewrite ?get_dsl_other_slot, ?HwA, ?HwB by done; try done.
    by apply set_slots_commute.
Qed.

(** X8: calls on different datastores do not see each other.  For two
    calls, each [op_lock] or [op_unlock], by any sessions on different
    datastores, run one after the other from a free rwlock: each gets the
    reply it gets when the other is not run at all, and both orders leave
    the same lock table. *)
Theorem calls_on_different_datastores (opA opB : rpc_op) (i j : tid)
    (A B : nc_session) (dsnameA dsnameB : string) (dsA dsB : sr_datastore_t)
    (oA oB : oracle) (s : shared) :
  target_ds dsnameA = Some dsA → target_ds dsnameB = Some dsB →
  dsA ≠ dsB →
  dslock_rwl s = rwl_free →
  let callA := match opA with
               | OP_LOCK => op_lock i A dsnameA oA
               | OP_UNLOCK => op_unlock i A dsnameA oA
               end in
  let callB := match opB with
               | OP_LOCK => op_lock j B dsnameB oB
               | OP_UNLOCK => op_unlock j B dsnameB oB
               end in
  ∃ sA sB sAB sBA,
    callA s = Some sA ∧ callB sA = Some sAB ∧
    callB s = Some sB ∧ callA sB = Some sBA ∧
    last_reply sBA = last_reply sA ∧
    last_reply sAB = last_reply sB ∧
    dslock sAB = dslock sBA.
Proof.
  intros HtA HtB Hne Hf callA callB. subst callA callB.
  pose proof (alone_shape opA A dsA oA) as (wA & rA & HsA).
  pose proof (alone_shape opB B dsB oB) as (wB & rB & HsB).
  cbn zeta in HsA, HsB.
  destruct opA, opB;
    match goal with
    | HsA : ∀ s, dslock (?fA s) = _ ∧ _, HsB : ∀ s, dslock (?fB s) = _ ∧ _ |- _ =>
        destruct (shape_commute fA fB dsA dsB wA wB rA rB Hne HsA HsB s)
          as (HrA & HrB & Hd);
        exists (fA s), (fB s), (fB (fA s)), (fA (fB s))
    end.
  - split_and!; [ exact (op_lock_alone _ _ _ _ _ _ HtA Hf)
                | apply (op_lock_alone _ _ _ _ _ _ HtB); by rewrite lock_alone_rwl
                | exact (op_lock_alone _ _ _ _ _ _ HtB Hf)
                | apply (op_lock_alone _ _ _ _ _ _ HtA); by rewrite lock_alone_rwl
                | done.. ].
  - split_and!; [ exact (op_lock_alone _ _ _ _ _ _ HtA Hf)
                | apply (op_unlock_alone _ _ _ _ _ _ HtB); by rewrite lock_alone_rwl
                | exact (op_unlock_alone _ _ _ _ _ _ HtB Hf)
                | apply (op_lock_alone _ _ _ _ _ _ HtA); by rewrite unlock_alone_rwl
                | done.. ].
  - split_and!; [ exact (op_unlock_alone _ _ _ _ _ _ HtA Hf)
                | apply (op_lock_alone _ _ _ _ _ _ HtB); by rewrite unlock_alone_rwl
                | exact (op_lock_alone _ _ _ _ _ _ HtB Hf)
                | apply (op_unlock_alone _ _ _ _ _ _ HtA); by rewrite lock_alone_rwl
                | done.. ].
  - split_and!; [ exact (op_unlock_alone _ _ _ _ _ _ HtA Hf)
                | apply (op_unlock_alone _ _ _ _ _ _ HtB); by rewrite unlock_alone_rwl
                | exact (op_unlock_alone _ _ _ _ _ _ HtB Hf)
                | apply (op_unlock_alone _ _ _ _ _ _ HtA); by rewrite unlock_alone_rwl
                | done.. ].
Qed.

Lemma calls_on_different_datastores_witness :
  ∃ sA sB sAB sBA,
    op_unlock 0 session1 "running" sr_ok running_locked = Some sA ∧
    op_lock 1 session2 "candidate" sr_ok sA = Some sAB ∧
    op_lock 1 session2 "candidate" sr_ok running_locked = Some sB ∧
    op_unlock 0 session1 "running" sr_ok sB = Some sBA ∧
    last_reply sBA = last_reply sA ∧
    last_reply sAB = last_reply sB ∧
    dslock sAB = dslock sBA.
Proof.
  apply (calls_on_different_datastores OP_UNLOCK OP_LOCK 0 1 session1 session2
           "running" "candidate" SR_DS_RUNNING SR_DS_CANDIDATE sr_ok sr_ok
           running_locked); done.
Defined.

(** ** The rwlock in the server *)

Lemma rwl_trans_reader i k l l' :
  k ≠ i → rwl_trans i l l' → k ∈ readers l' → k ∈ readers l.
Proof.
  unfold rwl_trans, pthread_rwlock_rdlock, pthread_rwlock_wrlock,
    pthread_rwlock_unlock.
  intros Hne [ -> | [ H | [ H | -> ] ] ] Hk; [done|..];
    repeat (case_decide || case_match); simplify_eq/=; set_solver.
Qed.

Lemma inv_held_init pool ds0 : inv_held (init pool ds0).
Proof. split; intros k Hk; simpl in Hk; [done|set_solver]. Qed.

Lemma inv_held_step lbl st st' :
  inv_rwl st → inv_held st → step lbl st = Some st' → inv_held st'.
Proof.
  destruct lbl as [i o]. intros [Hwf Hh] [Hw Hr] Hs.
  apply step_inv in Hs as ([n p] & p' & s' & Hlk & Ht & ->); simpl in *.
  pose proof (thr_step_rwl _ _ _ _ _ _ _ Ht) as Htr.
  pose proof (lookup_lt_Some _ _ _ Hlk) as Hlen.
  assert (writer (dslock_rwl (sh st)) = Some i →
          held_at p = HWrite ∨ held_at p = HEither) as Hwi.
  { intros Hwr. destruct (Hw _ Hwr) as (w & Hlk' & Hp). by simplify_eq. }
  assert (i ∈ readers (dslock_rwl (sh st)) →
          held_at p = HRead ∨ held_at p = HEither) as Hri.
  { intros Hrd. destruct (Hr _ Hrd) as (w & Hlk' & Hp). by simplify_eq. }
  split; intros k Hk; simpl in Hk |- *; destruct (decide (k = i)) as [->|Hne].
  - eexists. split; [by apply list_lookup_insert_eq|]. simpl.
    clear Hw Hr Hh Hlk Htr Hri Hlen.
    pc_cases p; naive_solver.
  - rewrite list_lookup_insert_ne by done. apply Hw.
    by eapply rwl_trans_writer.
  - eexists. split; [by apply list_lookup_insert_eq|]. simpl.
    clear Hw Hr Hh Hlk Htr Hwi Hlen.
    pc_cases p; try naive_solver; set_solver.
  - rewrite list_lookup_insert_ne by done. apply Hr.
    by eapply rwl_trans_reader.
Qed.

Lemma run_init_held pool ds0 sched st :
  run sched (init pool ds0) = Some st → inv_rwl st ∧ inv_held st.
Proof.
  apply (run_inv (λ st, inv_rwl st ∧ inv_held st) (λ _, True)).
  - intros lbl st0 st1 _ [Hrw Hh] Hs. split.
    + by eapply inv_rwl_step.
    + by eapply inv_held_step.
  - by apply Forall_true.
  - split; [apply inv_rwl_init | apply inv_held_init].
Qed.

(** X9: the rwlock is held by the threads inside a critical section and by
    no other.  In every run of the server the thread recorded as writer
    stands at a write-locked program point and every thread recorded as
    reader at a read-locked one; a thread outside the critical sections,
    an idle one in particular, holds nothing, so every exit of the two
    functions has released what the call took; and when all threads are
    idle the rwlock is free. *)
Theorem rwlock_released (pool : list nc_session) (ds0 : nc_session → sr_datastore_t)
    (sched : list (tid * oracle)) (st : state) :
  run sched (init pool ds0) = Some st →
  (∀ k, writer (dslock_rwl (sh st)) = Some k →
        ∃ w, workers st !! k = Some w ∧
             (held_at (w_pc w) = HWrite ∨ held_at (w_pc w) = HEither)) ∧
  (∀ k, k ∈ readers (dslock_rwl (sh st)) →
        ∃ w, workers st !! k = Some w ∧
             (held_at (w_pc w) = HRead ∨ held_at (w_pc w) = HEither)) ∧
  (∀ k w, workers st !! k = Some w → held_at (w_pc w) = HNone →
          writer (dslock_rwl (sh st)) ≠ Some k ∧
          k ∉ readers (dslock_rwl (sh st))) ∧
  ((∀ k w, workers st !! k = Some w → w_pc w = Idle) →
   dslock_rwl (sh st) = rwl_free).
Proof.
  intros Hr. destruct (run_init_held _ _ _ _ Hr) as [_ [Hw Hrd]].
  split_and!; [done|done|..].
  - intros k w Hk Hn. split.
    + intros Hwk. destruct (Hw _ Hwk) as (w' & ? & [?|?]); simplify_eq; congruence.
    + intros Hrk. destruct (Hrd _ Hrk) as (w' & ? & [?|?]); simplify_eq; congruence.
  - intros Hidle. destruct (dslock_rwl (sh st)) as [wr rd]; simpl in *.
    unfold rwl_free. f_equal.
    + destruct wr as [k|]; [|done].
      destruct (Hw k eq_refl) as (w & Hk & Hp).
      rewrite (Hidle _ _ Hk) in Hp. by destruct Hp.
    + apply set_eq. intros k. split; [|set_solver]. intros Hk.
      destruct (Hrd k Hk) as (w & Hlk & Hp).
      rewrite (Hidle _ _ Hlk) in Hp. by destruct Hp.
Qed.

Lemma rwlock_released_witness :
  match run in_turn (init [session1; session2] (λ _, SR_DS_RUNNING)) with
  | Some st => dslock_rwl (sh st) = rwl_free
  | None => False
  end.
Proof.
  destruct (run in_turn (init [session1; session2] (λ _, SR_DS_RUNNING)))
    as [st|] eqn:Hr.
  - destruct (rwlock_released _ _ _ _ Hr) as (_ & _ & _ & H).
    apply H. intros k w Hk.
    vm_compute in Hr. injection Hr as <-.
    destruct k as [|[|k]]; simpl in Hk; by simplify_eq.
  - vm_compute in Hr. discriminate.
Defined.

(** X10: the write-locked section is exclusive.  In every run of the
    server, while a thread stands at a write-locked program point (lines
    92-118 of [op_lock], lines 193-219 of [op_unlock]) every other thread
    is outside the critical sections, the read-locked ones included. *)
Theorem write_section_exclusive (pool : list nc_session)
    (ds0 : nc_session → sr_datastore_t) (sched : list (tid * oracle))
    (st : state) (k j : tid) (w w' : worker) :
  run sched (init pool ds0) = Some st →
  workers st !! k = Some w → workers st !! j = Some w' → k ≠ j →
  held_at (w_pc w) = HWrite →
  held_at (w_pc w') = HNone.
Proof.
  intros Hr Hk Hj Hne Hw.
  destruct (run_init_held _ _ _ _ Hr) as [[Hwf Hh] _].
  pose proof (Hh _ _ Hk) as Hhk. pose proof (Hh _ _ Hj) as Hhj.
  unfold holds_ok, rwl_wf in *. rewrite Hw in Hhk.
  destruct (held_at (w_pc w')); [done|..].
  - rewrite Hwf in Hhj by congruence. set_solver.
  - congruence.
  - destruct Hhj as [Hhj|Hhj]; [|congruence].
    rewrite Hwf in Hhj by congruence. set_solver.
Qed.

Lemma write_section_exclusive_witness :
  match run writer_and_waiter (init [session1; session2] (λ _, SR_DS_RUNNING)) with
  | Some st =>
      workers st = [Worker session1 (LK_srlock SR_DS_CANDIDATE);
                    Worker session2 (LK_rdlock SR_DS_CANDIDATE)] ∧
      held_at (LK_rdlock SR_DS_CANDIDATE) = HNone
  | None => False
  end.
Proof.
  destruct (run writer_and_waiter (init [session1; session2] (λ _, SR_DS_RUNNING)))
    as [st|] eqn:Hr.
  - assert (workers st = [Worker session1 (LK_srlock SR_DS_CANDIDATE);
                          Worker session2 (LK_rdlock SR_DS_CANDIDATE)]) as Hws
      by (vm_compute in Hr; by injection Hr as <-).
    split; [done|].
    apply (write_section_exclusive _ _ _ st 0 1
             (Worker session1 (LK_srlock SR_DS_CANDIDATE))
             (Worker session2 (LK_rdlock SR_DS_CANDIDATE)) Hr);
      [by rewrite Hws | by rewrite Hws | done | done].
  - vm_compute in Hr. discriminate.
Defined.

(** ** Waiting and returning *)

(** A thread waits in front of the rwlock only: at the read lock while a
    thread holds the write lock, at the write lock while any thread holds
    the rwlock. *)
Lemma thr_step_None i ncs o p s :
  thr_step i ncs o p s = None →
  ((∃ ds, p = LK_rdlock ds ∨ p = UL_rdlock ds) ∧
   writer (dslock_rwl s) ≠ None) ∨
  ((∃ ds, p = LK_wrlock ds ∨ p = UL_wrlock ds) ∧
   dslock_rwl s ≠ rwl_free).
Proof.
  unfold thr_step, ret, pthread_rwlock_rdlock, pthread_rwlock_wrlock.
  intros Hs. destruct p; repeat (case_decide || case_match);
    simplify_option_eq; try (left; split; [eauto|congruence]).
  all: right; split; [eauto|]; intros Hf; rewrite Hf in *; naive_solver.
Qed.

Lemma step_enabled i o st w :
  workers st !! i = Some w →
  is_Some (thr_step i (w_ncs w) o (w_pc w) (sh st)) →
  is_Some (step (i, o) st).
Proof.
  intros Hw [[p' s'] Ht]. unfold step; simpl. rewrite Hw; simpl.
  rewrite Ht; simpl. eauto.
Qed.

(** A thread inside a critical section can step. *)
Lemma holder_enabled i o st w :
  workers st !! i = Some w → held_at (w_pc w) ≠ HNone →
  is_Some (step (i, o) st).
Proof.
  intros Hw Hh. eapply step_enabled; [done|].
  destruct (thr_step i (w_ncs w) o (w_pc w) (sh st)) eqn:Ht; [done|].
  apply thr_step_None in Ht as [[(ds & [Hp|Hp]) _]|[(ds & [Hp|Hp]) _]];
    by rewrite Hp in Hh.
Qed.

Lemma step_None i o st w :
  workers st !! i = Some w → step (i, o) st = None →
  thr_step i (w_ncs w) o (w_pc w) (sh st) = None.
Proof.
  intros Hw Hs. unfold step in Hs; simpl in Hs. rewrite Hw in Hs; simpl in Hs.
  by destruct (thr_step i (w_ncs w) o (w_pc w) (sh st)) as [[??]|].
Qed.

(** X11: no deadlock.  In every run of the server a thread that cannot
    step stands in front of the rwlock (lines 77 and 90 of [op_lock], 169
    and 191 of [op_unlock]) and another thread holds the rwlock, and that
    thread can step: no thread waits while it holds the rwlock.  So some
    thread can always step. *)
Theorem no_deadlock (pool : list nc_session) (ds0 : nc_session → sr_datastore_t)
    (sched : list (tid * oracle)) (st : state) :
  run sched (init pool ds0) = Some st →
  (∀ i o w, workers st !! i = Some w → step (i, o) st = None →
     (∃ ds, w_pc w = LK_rdlock ds ∨ w_pc w = LK_wrlock ds ∨
            w_pc w = UL_rdlock ds ∨ w_pc w = UL_wrlock ds) ∧
     ∃ j, j ≠ i ∧
          (writer (dslock_rwl (sh st)) = Some j ∨ j ∈ readers (dslock_rwl (sh st))) ∧
          ∀ o', is_Some (step (j, o') st)) ∧
  (pool ≠ [] → ∀ o, ∃ i, is_Some (step (i, o) st)).
Proof.
  intros Hr. destruct (run_init_held _ _ _ _ Hr) as [_ [Hw Hrd]].
  assert (∀ i o w, workers st !! i = Some w → step (i, o) st = None →
     (∃ ds, w_pc w = LK_rdlock ds ∨ w_pc w = LK_wrlock ds ∨
            w_pc w = UL_rdlock ds ∨ w_pc w = UL_wrlock ds) ∧
     ∃ j, j ≠ i ∧
          (writer (dslock_rwl (sh st)) = Some j ∨ j ∈ readers (dslock_rwl (sh st))) ∧
          ∀ o', is_Some (step (j, o') st)) as Hblocked.
  { intros i o w Hi Hs. apply (step_None _ _ _ _ Hi) in Hs.
    assert (held_at (w_pc w) = HNone) as Hnone.
    { apply thr_step_None in Hs as [[(ds & [Hp|Hp]) _]|[(ds & [Hp|Hp]) _]];
        by rewrite Hp. }
    assert (∃ j, writer (dslock_rwl (sh st)) = Some j ∨
                 j ∈ readers (dslock_rwl (sh st))) as [j Hj].
    { apply thr_step_None in Hs as [[_ Hwr]|[_ Hnf]].
      - destruct (writer (dslock_rwl (sh st))) as [j|]; [eauto|done].
      - destruct (dslock_rwl (sh st)) as [[j|] rd]; simpl; [eauto|].
        destruct (decide (rd = ∅)) as [->|Hne]; [done|].
        apply set_choose_L in Hne as [j Hj]. eauto. }
    split.
    { apply thr_step_None in Hs as [[(ds & [Hp|Hp]) _]|[(ds & [Hp|Hp]) _]];
        exists ds; eauto. }
    exists j.
    assert (∃ w', workers st !! j = Some w' ∧ held_at (w_pc w') ≠ HNone)
      as (w' & Hj' & Hh').
    { destruct Hj as [Hj|Hj];
        [destruct (Hw _ Hj) as (w' & ? & [Hp|Hp])
        |destruct (Hrd _ Hj) as (w' & ? & [Hp|Hp])];
        exists w'; (split; [done|]); by rewrite Hp. }
    split_and!; [|done|].
    - intros ->. by simplify_eq.
    - intros o'. by eapply holder_enabled. }
  split; [done|].
  intros Hpool o.
  assert (∃ w, workers st !! 0%nat = Some w) as [w Hw0].
  { apply lookup_lt_is_Some.
    rewrite <-(length_fmap w_ncs), (run_sessions _ _ _ Hr), init_sessions.
    destruct pool; [done|simpl; lia]. }
  destruct (step (0%nat, o) st) eqn:Hs; [by exists 0%nat|].
  destruct (Hblocked _ _ _ Hw0 Hs) as (_ & j & _ & _ & Hj).
  exists j. apply Hj.
Qed.

Lemma no_deadlock_witness :
  match run writer_and_waiter (init [session1; session2] (λ _, SR_DS_RUNNING)) with
  | Some st =>
      step (1%nat, sr_ok) st = None ∧
      ∃ j, j ≠ 1%nat ∧
           (writer (dslock_rwl (sh st)) = Some j ∨ j ∈ readers (dslock_rwl (sh st))) ∧
           ∀ o', is_Some (step (j, o') st)
  | None => False
  end.
Proof.
  destruct (run writer_and_waiter (init [session1; session2] (λ _, SR_DS_RUNNING)))
    as [st|] eqn:Hr.
  - assert (step (1%nat, sr_ok) st = None
            ∧ workers st !! 1%nat
              = Some (Worker session2 (LK_rdlock SR_DS_CANDIDATE))) as [Hs Hw]
      by (vm_compute in Hr; by injection Hr as <-).
    split; [done|].
    destruct (no_deadlock _ _ _ _ Hr) as [H _].
    by destruct (H _ _ _ Hw Hs) as [_ ?].
  - vm_compute in Hr. discriminate.
Defined.

(** X12: every call returns after at most ten steps of its own, whatever
    the other threads do in between: each step of a call, the jump to the
    label lock_held included, brings the thread strictly nearer to its
    return, and an idle thread that is handed an RPC starts at ten. *)
Theorem call_bounded (i : tid) (ncs : nc_session) (o : oracle) (p p' : pc)
    (s s' : shared) :
  thr_step i ncs o p s = Some (p', s') →
  (remaining p ≤ 10)%nat ∧
  (p ≠ Idle → (remaining p' < remaining p)%nat) ∧
  (p = Idle → remaining p' = 10%nat).
Proof.
  unfold thr_step, ret. intros Hs.
  destruct p; repeat (case_decide || case_match); simplify_option_eq;
    simpl; split_and!; try done; lia.
Qed.

Lemma call_bounded_witness :
  (remaining (LK_wrcheck SR_DS_RUNNING) ≤ 10)%nat ∧
  (LK_wrcheck SR_DS_RUNNING ≠ Idle →
   (remaining (LK_held_unlock SR_DS_RUNNING) < remaining (LK_wrcheck SR_DS_RUNNING))%nat) ∧
  (LK_wrcheck SR_DS_RUNNING = Idle →
   remaining (LK_held_unlock SR_DS_RUNNING) = 10%nat).
Proof.
  apply (call_bounded 1 session2 sr_ok (LK_wrcheck SR_DS_RUNNING)
           (LK_held_unlock SR_DS_RUNNING) running_locked running_locked).
  reflexivity.
Defined.

(** ** The lock table in the runs of the server *)

Lemma run_one_thread_per_session pool ds0 sched st :
  run sched (init pool ds0) = Some st → NoDup pool → one_thread_per_session st.
Proof.
  intros Hr Hnd. unfold one_thread_per_session.
  by rewrite (run_sessions _ _ _ Hr), init_sessions.
Qed.

(** X13: in every run of the server, a thread about to call
    [sr_lock_datastore] (line 96) or to write the slot (line 116) holds
    the write lock, no thread holds a read lock, and the slot is free; a
    thread about to call [sr_unlock_datastore] (line 193) or
    [sr_discard_changes] (line 213) or to clear the slot (line 216) holds
    the write lock too, and when every session is served by one thread
    the slot names its session. *)
Theorem engine_calls_guarded (pool : list nc_session)
    (ds0 : nc_session → sr_datastore_t) (sched : list (tid * oracle))
    (st : state) (k : tid) (w : worker) (ds : sr_datastore_t) :
  run sched (init pool ds0) = Some st →
  workers st !! k = Some w →
  (w_pc w = LK_srlock ds ∨ w_pc w = LK_set_dsl ds →
     writer (dslock_rwl (sh st)) = Some k ∧ readers (dslock_rwl (sh st)) = ∅ ∧
     get_dsl ds (dslock (sh st)) = None) ∧
  (w_pc w = UL_srunlock ds ∨ w_pc w = UL_discard ds ∨ w_pc w = UL_clear_dsl ds →
     writer (dslock_rwl (sh st)) = Some k ∧ readers (dslock_rwl (sh st)) = ∅ ∧
     (NoDup pool → get_dsl ds (dslock (sh st)) = Some (w_ncs w))).
Proof.
  intros Hr Hw. destruct (run_init_inv _ _ _ _ Hr) as ([Hwf Hh] & Hown & _).
  specialize (Hh _ _ Hw). specialize (Hown _ _ Hw).
  pose proof (run_one_thread_per_session _ _ _ _ Hr) as Hnd.
  unfold holds_ok, own_fact, rwl_wf in *.
  split; intros Hp; destruct_or!; rewrite Hp in *; simpl in *;
    (split_and!; [done | apply Hwf; congruence | auto]).
Qed.

Lemma engine_calls_guarded_witness :
  match run writer_and_waiter (init [session1; session2] (λ _, SR_DS_RUNNING)) with
  | Some st =>
      writer (dslock_rwl (sh st)) = Some 0%nat ∧ readers (dslock_rwl (sh st)) = ∅ ∧
      get_dsl SR_DS_CANDIDATE (dslock (sh st)) = None
  | None => False
  end.
Proof.
  destruct (run writer_and_waiter (init [session1; session2] (λ _, SR_DS_RUNNING)))
    as [st|] eqn:Hr.
  - assert (workers st !! 0%nat
            = Some (Worker session1 (LK_srlock SR_DS_CANDIDATE))) as Hw
      by (vm_compute in Hr; by injection Hr as <-).
    destruct (engine_calls_guarded _ _ _ _ _ _ SR_DS_CANDIDATE Hr Hw) as [H _].
    apply H. by left.
  - vm_compute in Hr. discriminate.
Defined.

(** X14: no step of the server takes a held lock over.  In every run, a
    slot that names session [A] names [A] after any step, or is empty; it
    is emptied at line 216 of [op_unlock] only, and when every session is
    served by one thread, by the thread of [A]. *)
Theorem lock_never_stolen (pool : list nc_session)
    (ds0 : nc_session → sr_datastore_t) (sched : list (tid * oracle))
    (st st' : state) (i : tid) (o : oracle) (ds : sr_datastore_t)
    (A : nc_session) :
  run sched (init pool ds0) = Some st →
  step (i, o) st = Some st' →
  get_dsl ds (dslock (sh st)) = Some A →
  get_dsl ds (dslock (sh st')) = Some A ∨
  (get_dsl ds (dslock (sh st')) = None ∧
   ∃ w, workers st !! i = Some w ∧ w_pc w = UL_clear_dsl ds ∧
        (NoDup pool → w_ncs w = A)).
Proof.
  intros Hr Hs HA. destruct (run_init_inv _ _ _ _ Hr) as (_ & Hown & _).
  pose proof (run_one_thread_per_session _ _ _ _ Hr) as Hnd.
  apply step_inv in Hs as (w & p' & s' & Hw & Ht & ->); simpl.
  specialize (Hown _ _ Hw). unfold own_fact in Hown.
  apply thr_step_dslock in Ht
    as [-> | [(ds' & Hp & _ & ->) | [(ds' & _ & _ & ->)
       | [(ds' & Hp & _ & ->) | (ds' & _ & _ & ->)]]]];
    rewrite ?get_dsl_set_dst; auto.
  - rewrite Hp in Hown. destruct (decide (ds' = ds)) as [->|Hne].
    + congruence.
    + left. by rewrite get_set_dsl_ne.
  - rewrite Hp in Hown. destruct (decide (ds' = ds)) as [->|Hne].
    + right. rewrite get_set_dsl. split; [done|].
      exists w. split_and!; [done..|]. intros Hp'.
      specialize (Hown (Hnd Hp')). congruence.
    + left. by rewrite get_set_dsl_ne.
Qed.

Lemma lock_never_stolen_witness :
  match run clearing (init [session1; session2] (λ _, SR_DS_RUNNING)) with
  | Some st =>
      match step (0%nat, rpc OP_UNLOCK "candidate") st with
      | Some st' =>
          get_dsl SR_DS_CANDIDATE (dslock (sh st)) = Some session1 ∧
          get_dsl SR_DS_CANDIDATE (dslock (sh st')) = None ∧
          (get_dsl SR_DS_CANDIDATE (dslock (sh st')) = Some session1 ∨
           (get_dsl SR_DS_CANDIDATE (dslock (sh st')) = None ∧
            ∃ w, workers st !! 0%nat = Some w ∧
                 w_pc w = UL_clear_dsl SR_DS_CANDIDATE ∧
                 (NoDup [session1; session2] → w_ncs w = session1)))
      | None => False
      end
  | None => False
  end.
Proof.
  destruct (run clearing (init [session1; session2] (λ _, SR_DS_RUNNING)))
    as [st|] eqn:Hr; [|vm_compute in Hr; discriminate].
  destruct (step (0%nat, rpc OP_UNLOCK "candidate") st) as [st'|] eqn:Hs.
  - assert (get_dsl SR_DS_CANDIDATE (dslock (sh st)) = Some session1) as HA
      by (vm_compute in Hr; by injection Hr as <-).
    split; [done|]. split.
    + vm_compute in Hr. injection Hr as <-. vm_compute in Hs.
      by injection Hs as <-.
    + exact (lock_never_stolen _ _ _ _ _ _ _ _ _ Hr Hs HA).
  - vm_compute in Hr. injection Hr as <-. vm_compute in Hs. discriminate.
Defined.

(** X15: the lock table is written under the write lock only.  In every
    run, a step that changes the table is a step of the thread that holds
    the write lock, which holds it after the step as well. *)
Theorem table_written_under_write_lock (pool : list nc_session)
    (ds0 : nc_session → sr_datastore_t) (sched : list (tid * oracle))
    (st st' : state) (i : tid) (o : oracle) :
  run sched (init pool ds0) = Some st →
  step (i, o) st = Some st' →
  dslock (sh st') ≠ dslock (sh st) →
  writer (dslock_rwl (sh st)) = Some i ∧ writer (dslock_rwl (sh st')) = Some i.
Proof.
  intros Hr Hs Hd. destruct (run_init_inv _ _ _ _ Hr) as ([_ Hh] & _ & _).
  apply step_inv in Hs as (w & p' & s' & Hw & Ht & ->); simpl in *.
  specialize (Hh _ _ Hw). unfold holds_ok in Hh.
  pose proof (thr_step_dslock _ _ _ _ _ _ _ Ht)
    as [? | [(ds' & Hp & _) | [(ds' & Hp & _)
       | [(ds' & Hp & _) | (ds' & Hp & _)]]]]; [done|..];
    rewrite Hp in Ht, Hh; unfold thr_step, ret in Ht; by simplify_eq/=.
Qed.

Lemma table_written_under_write_lock_witness :
  match run clearing (init [session1; session2] (λ _, SR_DS_RUNNING)) with
  | Some st =>
      match step (0%nat, rpc OP_UNLOCK "candidate") st with
      | Some st' =>
          dslock (sh st') ≠ dslock (sh st) ∧
          writer (dslock_rwl (sh st)) = Some 0%nat ∧
          writer (dslock_rwl (sh st')) = Some 0%nat
      | None => False
      end
  | None => False
  end.
Proof.
  destruct (run clearing (init [session1; session2] (λ _, SR_DS_RUNNING)))
    as [st|] eqn:Hr; [|vm_compute in Hr; discriminate].
  destruct (step (0%nat, rpc OP_UNLOCK "candidate") st) as [st'|] eqn:Hs.
  - assert (dslock (sh st') ≠ dslock (sh st)) as Hd.
    { vm_compute in Hr. injection Hr as <-. vm_compute in Hs.
      by injection Hs as <-. }
    split; [done|].
    exact (table_written_under_write_lock _ _ _ _ _ _ _ Hr Hs Hd).
  - vm_compute in Hr. injection Hr as <-. vm_compute in Hs. discriminate.
Defined.

Lemma inv_served_step lbl st st' :
  inv_served st → step lbl st = Some st' → inv_served st'.
Proof.
  destruct lbl as [i o]. intros Hsv Hs ds n.
  rewrite (step_sessions _ _ _ Hs).
  apply step_inv in Hs as (w & p' & s' & Hw & Ht & ->); simpl.
  apply thr_step_dslock in Ht
    as [-> | [(ds' & _ & _ & ->) | [(ds' & _ & _ & ->)
       | [(ds' & _ & _ & ->) | (ds' & _ & _ & ->)]]]];
    rewrite ?get_dsl_set_dst; try apply Hsv.
  - destruct (decide (ds' = ds)) as [->|Hne].
    + rewrite get_set_dsl. intros [= <-].
      apply list_elem_of_fmap. exists w. split; [done|].
      by eapply list_elem_of_lookup_2.
    + rewrite get_set_dsl_ne by done. apply Hsv.
  - destruct (decide (ds' = ds)) as [->|Hne].
    + by rewrite get_set_dsl.
    + rewrite get_set_dsl_ne by done. apply Hsv.
Qed.

(** X16: the lock table names sessions of the server only.  In every
    run, a session found in a slot is one of the pool: a slot is written
    with the session of the calling thread (line 116) or cleared (line
    216), nothing else. *)
Theorem lock_table_sessions (pool : list nc_session)
    (ds0 : nc_session → sr_datastore_t) (sched : list (tid * oracle))
    (st : state) (ds : sr_datastore_t) (n : nc_session) :
  run sched (init pool ds0) = Some st →
  get_dsl ds (dslock (sh st)) = Some n →
  n ∈ pool.
Proof.
  intros Hr Hn.
  assert (inv_served st) as Hsv.
  { revert Hr. apply (run_inv inv_served (λ _, True)).
    - intros lbl st0 st1 _ Hsv Hs. by eapply inv_served_step.
    - by apply Forall_true.
    - intros ds' n'. by destruct ds'. }
  rewrite <-(init_sessions pool ds0), <-(run_sessions _ _ _ Hr). by eapply Hsv.
Qed.

Lemma lock_table_sessions_witness :
  match run clearing (init [session1; session2] (λ _, SR_DS_RUNNING)) with
  | Some st => session1 ∈ [session1; session2]
  | None => False
  end.
Proof.
  destruct (run clearing (init [session1; session2] (λ _, SR_DS_RUNNING)))
    as [st|] eqn:Hr; [|vm_compute in Hr; discriminate].
  apply (lock_table_sessions _ _ _ st SR_DS_CANDIDATE session1 Hr).
  vm_compute in Hr. by injection Hr as <-.
Defined.
